(** * research-assistant-backend: the Express proxy of [server.js]

    A shallow embedding of the two source files of the repository
    ([server.js] and its sibling with the origin allow-list) and the
    properties of their request handling.

    Conventions of the model.
    - A JavaScript string is its sequence of UTF-16 code units, [list N].
    - JSON data is the type [json]; a number keeps the decimal literal it
      was read from ([JNum m e] stands for [m * 10^e] rounded to binary64),
      and rounding is modelled where the code branches on it (truthiness).
    - A JavaScript object used as a dictionary is a [gmap] from keys to
      values; the inherited members of the built-in prototypes are visible
      to property reads, as they are in the running program.
    - The one effect of a handler, the outbound [fetch], is a node of the
      [action] type; what the upstream answers is an argument of its
      continuation. Console logging is not modelled.
    - The request body is arbitrary JSON, as [express.json()] leaves it. The
      body of an upstream answer is typed by the schema of the completion
      API, every level the handlers guard being optional. *)

From Stdlib Require Import ZArith NArith Ascii String.
From stdpp Require Import gmap list option strings.

Set Warnings "-register-all".

Local Open Scope N_scope.

(* ===================================================================== *)
(** ** Strings *)
(* ===================================================================== *)

Module JsString.

(** The code units of an ASCII literal. *)
Definition str (s : string) : list N := N_of_ascii <$> list_ascii_of_string s.
Global Arguments str : simpl never.

Definition dquote : list N := [34].
Definition newline : list N := [10].

(** [WhiteSpace] and [LineTerminator] of ECMAScript: the class matched by
    [\s] in a regular expression and removed by [String.prototype.trim]. *)
Definition is_space (c : N) : bool :=
  match c with
  | 9 | 10 | 11 | 12 | 13 | 32 | 160 | 5760 | 8232 | 8233 | 8239 | 8287
  | 12288 | 65279 => true
  | _ => (8192 <=? c) && (c <=? 8202)
  end.

Fixpoint drop_space (s : list N) : list N :=
  match s with
  | c :: r => if is_space c then drop_space r else s
  | [] => []
  end.

Fixpoint all_space (s : list N) : bool :=
  match s with
  | c :: r => is_space c && all_space r
  | [] => true
  end.

(** [s.trim()] *)
Definition trim (s : list N) : list N :=
  reverse (drop_space (reverse (drop_space s))).

(** [s.substring(0, Math.min(s.length, n))] *)
Definition substring0 (n : nat) (s : list N) : list N :=
  take (Nat.min (length s) n) s.

(** [strip_prefix p s] is the rest of [s] after its prefix [p]. *)
Fixpoint strip_prefix (p s : list N) : option (list N) :=
  match p, s with
  | [], _ => Some s
  | a :: p', b :: s' => if a =? b then strip_prefix p' s' else None
  | _ :: _, [] => None
  end.

(** [l.join(sep)] on strings. *)
Fixpoint join (sep : list N) (l : list (list N)) : list N :=
  match l with
  | [] => []
  | [x] => x
  | x :: r => x ++ sep ++ join sep r
  end.


End JsString.
Import JsString.

(* ===================================================================== *)
(** ** JSON data and the values of property reads *)
(* ===================================================================== *)

Inductive json :=
  | JNull
  | JBool (b : bool)
  | JNum (m e : Z)
  | JStr (s : list N)
  | JArr (l : list json)
  | JObj (o : gmap (list N) json).

(** The built-in prototype objects a JSON value inherits from. *)
Inductive proto_kind := PObject | PArray | PString | PNumber | PBoolean.

(** What [x[k]] can evaluate to when [x] is JSON data: nothing, data, a
    built-in method inherited from a prototype, or (through the
    [__proto__] accessor) a prototype object itself. *)
Inductive value :=
  | Undefined
  | Data (j : json)
  | Function (owner : proto_kind) (name : list N)
  | Prototype (k : proto_kind).

(** Thrown values: each carries its [message]. *)
Inductive js_error :=
  | Error (msg : list N)
  | TypeError (msg : list N)
  | SyntaxError (msg : list N)
  | FetchError (msg : list N).

Definition error_message (e : js_error) : list N :=
  match e with
  | Error m | TypeError m | SyntaxError m | FetchError m => m
  end.

Module Js.

(** *** Numbers: zero test and printing *)

(** A literal [m * 10^e] rounds to (plus or minus) zero when it is zero or
    at most half the least subnormal, [2^-1075] (ties go to even). *)
Definition num_is_zero (m e : Z) : bool :=
  ((m =? 0) || ((e <? 0) && (Z.abs m * 2 ^ 1075 <=? 10 ^ (- e))))%Z.

(** It rounds to an infinity from [2^1024 - 2^970] on. *)
Definition num_is_infinite (m e : Z) : bool :=
  (if e <? 0 then (2 ^ 1024 - 2 ^ 970) * 10 ^ (- e) <=? Z.abs m
   else 2 ^ 1024 - 2 ^ 970 <=? Z.abs m * 10 ^ e)%Z.

Fixpoint digits_go (fuel : nat) (n : N) (acc : list N) : list N :=
  match fuel with
  | O => acc
  | S f => if n <? 10 then (48 + n) :: acc
           else digits_go f (n / 10) ((48 + n mod 10) :: acc)
  end.

(** Decimal digits of [n], most significant first. *)
Definition digits (n : N) : list N := digits_go (S (N.size_nat n)) n [].

Fixpoint strip_zeros_go (fuel : nat) (m e : Z) : Z * Z :=
  match fuel with
  | O => (m, e)
  | S f => if (m mod 10 =? 0)%Z then strip_zeros_go f (m / 10)%Z (e + 1)%Z
           else (m, e)
  end.

Definition zeros (n : Z) : list N := replicate (Z.to_nat n) 48.

(** [Number::toString] in radix 10, applied to the decimal literal. The
    digits are those of the literal: that is the ECMAScript result for
    literals of at most 15 significant digits, which binary64 keeps
    apart; longer literals are printed without the rounding. *)
Definition Number_toString (m e : Z) : list N :=
  if num_is_zero m e then str "0"
  else if num_is_infinite m e then
    (if (m <? 0)%Z then str "-Infinity" else str "Infinity")
  else
    let '(m', e') := strip_zeros_go (N.size_nat (Z.to_N (Z.abs m))) (Z.abs m) e in
    let s := digits (Z.to_N m') in
    let k := Z.of_nat (length s) in
    let n := (k + e')%Z in
    let sign := if (m <? 0)%Z then str "-" else [] in
    let exponent x :=
      (if (x <? 0)%Z then str "e-" else str "e+") ++ digits (Z.to_N (Z.abs x)) in
    sign ++
    (if ((k <=? n) && (n <=? 21))%Z then s ++ zeros (n - k)
     else if ((0 <? n) && (n <=? 21))%Z then
       take (Z.to_nat n) s ++ str "." ++ drop (Z.to_nat n) s
     else if ((-6 <? n) && (n <=? 0))%Z then str "0." ++ zeros (- n) ++ s
     else if (k =? 1)%Z then s ++ exponent (n - 1)%Z
     else take 1 s ++ str "." ++ drop 1 s ++ exponent (n - 1)%Z).

(** *** Truthiness *)

(** [ToBoolean] on JSON data: [null], [false], zero and the empty string
    are falsy. *)
Definition truthy_json (j : json) : bool :=
  match j with
  | JNull => false
  | JBool b => b
  | JNum m e => negb (num_is_zero m e)
  | JStr s => negb (bool_decide (s = []))
  | JArr _ | JObj _ => true
  end.

Definition truthy (v : value) : bool :=
  match v with
  | Undefined => false
  | Data j => truthy_json j
  | Function _ _ | Prototype _ => true
  end.

(** *** String conversion *)

(** [ToString] on JSON data, as performed by a template literal and by a
    computed property key. An array joins its elements with commas, with
    [null] elements printed as nothing. *)
Fixpoint ToString (j : json) : list N :=
  match j with
  | JNull => str "null"
  | JBool true => str "true"
  | JBool false => str "false"
  | JNum m e => Number_toString m e
  | JStr s => s
  | JArr l =>
      join (str ",")
        ((fix items (l : list json) : list (list N) :=
            match l with
            | [] => []
            | x :: r => (match x with JNull => [] | _ => ToString x end) :: items r
            end) l)
  | JObj _ => str "[object Object]"
  end.

End Js.

(* ===================================================================== *)
(** ** [JSON.parse] *)
(* ===================================================================== *)

Module JSON.

(** The four white-space characters of the JSON grammar. *)
Definition is_ws (c : N) : bool :=
  match c with 9 | 10 | 13 | 32 => true | _ => false end.

Fixpoint skip_ws (s : list N) : list N :=
  match s with
  | c :: r => if is_ws c then skip_ws r else s
  | [] => []
  end.

Definition digit_val (c : N) : option N :=
  if (48 <=? c) && (c <=? 57) then Some (c - 48) else None.

Definition hex_val (c : N) : option N :=
  if (48 <=? c) && (c <=? 57) then Some (c - 48)
  else if (65 <=? c) && (c <=? 70) then Some (c - 55)
  else if (97 <=? c) && (c <=? 102) then Some (c - 87)
  else None.

(** The character a one-letter escape stands for. *)
Definition escaped (c : N) : option N :=
  match c with
  | 34 => Some 34    (* quote *)
  | 92 => Some 92    (* backslash *)
  | 47 => Some 47    (* slash *)
  | 98 => Some 8     (* b *)
  | 102 => Some 12   (* f *)
  | 110 => Some 10   (* n *)
  | 114 => Some 13   (* r *)
  | 116 => Some 9    (* t *)
  | _ => None
  end.

(** The characters of a string literal after its opening quote, up to
    and including the closing quote. [acc] holds the code units read so
    far, last first. *)
Fixpoint parse_chars (s : list N) (acc : list N) : option (list N * list N) :=
  match s with
  | [] => None
  | c :: r =>
      if c =? 34 then Some (reverse acc, r)
      else if c =? 92 then
        match r with
        | [] => None
        | e :: r' =>
            match escaped e with
            | Some x => parse_chars r' (x :: acc)
            | None =>
                if e =? 117 then
                  match r' with
                  | h1 :: h2 :: h3 :: h4 :: r'' =>
                      match hex_val h1, hex_val h2, hex_val h3, hex_val h4 with
                      | Some a, Some b, Some c, Some d =>
                          parse_chars r'' (((a * 16 + b) * 16 + c) * 16 + d :: acc)
                      | _, _, _, _ => None
                      end
                  | _ => None
                  end
                else None
            end
        end
      else if c <? 32 then None
      else parse_chars r (c :: acc)
  end.

(** A run of decimal digits: its value read as a natural number, how many
    there were, and the rest. *)
Fixpoint span_digits (s : list N) (acc : N) (count : nat) : N * nat * list N :=
  match s with
  | c :: r =>
      match digit_val c with
      | Some d => span_digits r (acc * 10 + d) (S count)
      | None => (acc, count, s)
      end
  | [] => (acc, count, s)
  end.

(** An optional sign: whether it was a minus, and the rest. *)
Definition parse_sign (plus_too : bool) (s : list N) : bool * list N :=
  match s with
  | c :: r =>
      if c =? 45 then (true, r)
      else if plus_too && (c =? 43) then (false, r)
      else (false, s)
  | [] => (false, s)
  end.

(** [int]: [0], or a digit run that does not start with [0]. *)
Definition parse_int (s : list N) : option (N * list N) :=
  match s with
  | c :: r =>
      if c =? 48 then Some (0, r)
      else let '(v, n, r') := span_digits s 0 0 in
           if bool_decide (n = O) then None else Some (v, r')
  | [] => None
  end.

(** [frac?]: the mantissa extended by the digits after the point, and how
    many there were. *)
Definition parse_frac (int_part : N) (s : list N) : option (N * nat * list N) :=
  match s with
  | c :: r =>
      if c =? 46 then
        let '(v, n, r') := span_digits r int_part 0 in
        if bool_decide (n = O) then None else Some (v, n, r')
      else Some (int_part, O, s)
  | [] => Some (int_part, O, s)
  end.

(** [exp?] *)
Definition parse_exp (s : list N) : option (Z * list N) :=
  match s with
  | c :: r =>
      if (c =? 101) || (c =? 69) then
        let '(neg, r1) := parse_sign true r in
        let '(v, n, r2) := span_digits r1 0 0 in
        if bool_decide (n = O) then None
        else Some (if neg then (- Z.of_N v)%Z else Z.of_N v, r2)
      else Some (0%Z, s)
  | [] => Some (0%Z, s)
  end.

(** [-? int frac? exp?] *)
Definition parse_number (s : list N) : option (json * list N) :=
  let '(neg, s1) := parse_sign false s in
  '(iv, s2) ← parse_int s1;
  '(mv, fn, s3) ← parse_frac iv s2;
  '(ev, s4) ← parse_exp s3;
  Some (JNum (if neg then - Z.of_N mv else Z.of_N mv)%Z (ev - Z.of_nat fn)%Z, s4).

(** One of the words [true], [false], [null]. *)
Definition parse_word (word : string) (v : json) (s : list N) : option (json * list N) :=
  r ← strip_prefix (str word) s; Some (v, r).

Section Composite.
(** The parser of one value, for the elements and members below. *)
Variable parse_value : list N → option (json * list N).

(** Elements of an array: a value, then a comma and more, or the closing
    bracket. [n] bounds the number of elements. *)
Fixpoint parse_elements (n : nat) (s : list N) (acc : list json)
  : option (list json * list N) :=
  match n with
  | O => None
  | S n' =>
      '(v, r) ← parse_value s;
      match skip_ws r with
      | c :: r' =>
          if c =? 44 then parse_elements n' r' (v :: acc)
          else if c =? 93 then Some (reverse (v :: acc), r')
          else None
      | [] => None
      end
  end.

(** Members of an object: a string, a colon, a value, then a comma and
    more, or the closing brace. A repeated key keeps its last value. *)
Fixpoint parse_members (n : nat) (s : list N) (acc : gmap (list N) json)
  : option (gmap (list N) json * list N) :=
  match n with
  | O => None
  | S n' =>
      match skip_ws s with
      | q :: r =>
          if q =? 34 then
            '(k, r1) ← parse_chars r [];
            match skip_ws r1 with
            | colon :: r2 =>
                if colon =? 58 then
                  '(v, r3) ← parse_value r2;
                  match skip_ws r3 with
                  | c :: r4 =>
                      if c =? 44 then parse_members n' r4 (<[k := v]> acc)
                      else if c =? 125 then Some (<[k := v]> acc, r4)
                      else None
                  | [] => None
                  end
                else None
            | [] => None
            end
          else None
      | [] => None
      end
  end.
End Composite.

(** One JSON value, after optional white space. [fuel] bounds the nesting
    depth and the number of elements of an array or object. *)
Fixpoint parse_value (fuel : nat) (s : list N) : option (json * list N) :=
  match fuel with
  | O => None
  | S fuel' =>
      match skip_ws s with
      | [] => None
      | c :: r =>
          if c =? 123 then
            match skip_ws r with
            | c' :: r' =>
                if c' =? 125 then Some (JObj ∅, r')
                else '(o, r'') ← parse_members (parse_value fuel') fuel' r ∅;
                     Some (JObj o, r'')
            | [] => None
            end
          else if c =? 91 then
            match skip_ws r with
            | c' :: r' =>
                if c' =? 93 then Some (JArr [], r')
                else '(l, r'') ← parse_elements (parse_value fuel') fuel' r [];
                     Some (JArr l, r'')
            | [] => None
            end
          else if c =? 34 then '(k, r') ← parse_chars r []; Some (JStr k, r')
          else if c =? 116 then parse_word "true" (JBool true) (c :: r)
          else if c =? 102 then parse_word "false" (JBool false) (c :: r)
          else if c =? 110 then parse_word "null" JNull (c :: r)
          else if (c =? 45) || ((48 <=? c) && (c <=? 57)) then parse_number (c :: r)
          else None
      end
  end.

(** [JSON.parse(text)]: one value and nothing but white space after it;
    [None] stands for the [SyntaxError]. Nesting and element counts are
    below the length of the text, so that much fuel is enough. *)
Definition parse (text : list N) : option json :=
  match parse_value (S (length text)) text with
  | Some (v, r) => match skip_ws r with [] => Some v | _ => None end
  | None => None
  end.

(** A parser that, when it succeeds, has read at least one character. *)
Definition consuming (pv : list N → option (json * list N)) : Prop :=
  ∀ s v r, pv s = Some (v, r) → (length r < length s)%nat.

End JSON.

(* ===================================================================== *)
(** ** Property reads and writes *)
(* ===================================================================== *)

Module Props.
Import Js.

(** Members of the built-in prototypes (ECMAScript 2023). *)
Definition members (k : proto_kind) : list (list N) :=
  str <$>
  match k with
  | PObject =>
      ["constructor"; "__defineGetter__"; "__defineSetter__";
       "hasOwnProperty"; "__lookupGetter__"; "__lookupSetter__";
       "isPrototypeOf"; "propertyIsEnumerable"; "toString"; "valueOf";
       "__proto__"; "toLocaleString"]
  | PArray =>
      ["constructor"; "at"; "concat"; "copyWithin"; "fill"; "find";
       "findIndex"; "findLast"; "findLastIndex"; "lastIndexOf"; "pop";
       "push"; "reverse"; "shift"; "unshift"; "slice"; "sort"; "splice";
       "includes"; "indexOf"; "join"; "keys"; "entries"; "values";
       "forEach"; "filter"; "flat"; "flatMap"; "map"; "every"; "some";
       "reduce"; "reduceRight"; "toLocaleString"; "toString"; "toReversed";
       "toSorted"; "toSpliced"; "with"]
  | PString =>
      ["constructor"; "anchor"; "at"; "big"; "blink"; "bold";
       "charAt"; "charCodeAt"; "codePointAt"; "concat"; "endsWith";
       "fontcolor"; "fontsize"; "fixed"; "includes"; "indexOf";
       "isWellFormed"; "italics"; "lastIndexOf"; "link"; "localeCompare";
       "match"; "matchAll"; "normalize"; "padEnd"; "padStart"; "repeat";
       "replace"; "replaceAll"; "search"; "slice"; "small"; "split";
       "strike"; "sub"; "substr"; "substring"; "sup"; "startsWith";
       "toString"; "toWellFormed"; "trim"; "trimStart"; "trimLeft";
       "trimEnd"; "trimRight"; "toLocaleLowerCase"; "toLocaleUpperCase";
       "toLowerCase"; "toUpperCase"; "valueOf"]
  | PNumber =>
      ["constructor"; "toExponential"; "toFixed"; "toPrecision";
       "toString"; "valueOf"; "toLocaleString"]
  | PBoolean => ["constructor"; "toString"; "valueOf"]
  end.

Definition proto_key : list N := str "__proto__".

(** The prototype chain of a JSON value that is not [null]. *)
Definition proto_chain (j : json) : list proto_kind :=
  match j with
  | JNull => []
  | JBool _ => [PBoolean; PObject]
  | JNum _ _ => [PNumber; PObject]
  | JStr _ => [PString; PObject]
  | JArr _ => [PArray; PObject]
  | JObj _ => [PObject]
  end.

(** A canonical array index: the decimal spelling of a natural number. *)
Definition array_index (k : list N) : option nat :=
  let '(v, n, r) := JSON.span_digits k 0 0 in
  if bool_decide (r = [] ∧ digits v = k) then Some (N.to_nat v) else None.

(** The own data property [k] of a JSON value. *)
Definition own_property (j : json) (k : list N) : option json :=
  match j with
  | JObj o => o !! k
  | JArr l =>
      if bool_decide (k = str "length") then Some (JNum (Z.of_nat (length l)) 0)
      else i ← array_index k; l !! i
  | JStr s =>
      if bool_decide (k = str "length") then Some (JNum (Z.of_nat (length s)) 0)
      else i ← array_index k; c ← s !! i; Some (JStr [c])
  | JNull | JBool _ | JNum _ _ => None
  end.

(** The member [k] found along a prototype chain. Reading [__proto__]
    runs the accessor of [Object.prototype], which answers the first
    prototype of the receiver. *)
Fixpoint inherited (receiver : list proto_kind) (chain : list proto_kind)
    (k : list N) : value :=
  match chain with
  | [] => Undefined
  | p :: rest =>
      if bool_decide (k ∈ members p) then
        if bool_decide (k = proto_key) then
          match receiver with r :: _ => Prototype r | [] => Undefined end
        else Function p k
      else inherited receiver rest k
  end.

(** [j[k]]: a [TypeError] on [null], else the own property, else the
    inherited one, else [undefined]. *)
Definition get_prop (j : json) (k : list N) : js_error + value :=
  match j with
  | JNull =>
      inl (TypeError (str "Cannot read properties of null (reading '"
                        ++ k ++ str "')"))
  | _ =>
      match own_property j k with
      | Some v => inr (Data v)
      | None => inr (inherited (proto_chain j) (proto_chain j) k)
      end
  end.

(** [Array.isArray(v)] *)
Definition isArray (v : value) : bool :=
  match v with Data (JArr _) => true | _ => false end.

(** Own enumerable properties copied by an object spread [{...j}]. *)
Definition spread (j : json) : gmap (list N) json :=
  match j with
  | JObj o => o
  | JArr l => list_to_map (imap (λ i x, (digits (N.of_nat i), x)) l)
  | JStr s => list_to_map (imap (λ i c, (digits (N.of_nat i), JStr [c])) s)
  | JNull | JBool _ | JNum _ _ => ∅
  end.

(** An ordinary object under construction: its own properties and its
    prototype ([Data JNull] for none). *)
Record object := { own : gmap (list N) value; proto : value }.

(** [{}] *)
Definition empty_object : object := {| own := ∅; proto := Prototype PObject |}.

Definition is_object_or_null (v : value) : bool :=
  match v with
  | Data (JObj _ | JArr _ | JNull) | Function _ _ | Prototype _ => true
  | Undefined | Data _ => false
  end.

(** Whether [__proto__] still resolves to the accessor of
    [Object.prototype] from prototype [p]: not when the chain was cut
    ([null]) or when [p] has an own data property of that name. *)
Definition reaches_proto_setter (p : value) : bool :=
  match p with
  | Data JNull => false
  | Data (JObj o) => negb (bool_decide (is_Some (o !! proto_key)))
  | _ => true
  end.

(** Whether an inherited property [k] refuses assignment: the [length]
    of [String.prototype], the [length] and [name] of a function. *)
Definition inherited_readonly (p : value) (k : list N) : bool :=
  match p with
  | Prototype PString => bool_decide (k = str "length")
  | Function _ _ => bool_decide (k = str "length" ∨ k = str "name")
  | _ => false
  end.

(** [obj[k] = v] in sloppy mode. *)
Definition assign (obj : object) (k : list N) (v : value) : object :=
  if bool_decide (is_Some (own obj !! k)) then
    {| own := <[k := v]> (own obj); proto := proto obj |}
  else if bool_decide (k = proto_key) && reaches_proto_setter (proto obj) then
    if is_object_or_null v then {| own := own obj; proto := v |} else obj
  else if inherited_readonly (proto obj) k then obj
  else {| own := <[k := v]> (own obj); proto := proto obj |}.

(** What [JSON.stringify] writes for a property value: functions and
    [undefined] are left out, a prototype object is written as the empty
    value of its kind. *)
Definition to_wire (v : value) : option json :=
  match v with
  | Undefined | Function _ _ => None
  | Data j => Some j
  | Prototype PObject => Some (JObj ∅)
  | Prototype PArray => Some (JArr [])
  | Prototype PString => Some (JStr [])
  | Prototype PNumber => Some (JNum 0 0)
  | Prototype PBoolean => Some (JBool false)
  end.

(** The JSON written for an object: its own properties. *)
Definition stringify_object (obj : object) : gmap (list N) json :=
  omap to_wire (own obj).

End Props.

(* ===================================================================== *)
(** ** Cleaning the model's reply before parsing *)
(* ===================================================================== *)

Module Fence.

(** First alternative of [/^```json\s*|```\s*$/g], tried at the start of
    the text: the tagged fence and the white space after it. Answers the
    rest of the text. *)
Definition opening_here (s : list N) : option (list N) :=
  drop_space <$> strip_prefix (str "```json") s.

(** Second alternative at the current position: a fence with nothing but
    white space between it and the end of the text. *)
Definition closing_here (s : list N) : bool :=
  match strip_prefix (str "```") s with
  | Some r => all_space r
  | None => false
  end.

(** The global search from a position past the start: characters are
    kept until the second alternative matches, which consumes the rest. *)
Fixpoint strip_closing (s : list N) : list N :=
  if closing_here s then []
  else match s with
       | [] => []
       | c :: r => c :: strip_closing r
       end.

(** [s.replace(/^```json\s*|```\s*$/g, '')] *)
Definition replace_fences (s : list N) : list N :=
  match opening_here s with
  | Some r => strip_closing r
  | None => strip_closing s
  end.

(** [rawContent.replace(/^```json\s*|```\s*$/g, '').trim()] *)
Definition jsonString (rawContent : list N) : list N :=
  trim (replace_fences rawContent).

End Fence.

(* ===================================================================== *)
(** ** The HTTP exchange *)
(* ===================================================================== *)

(** Code that can throw: the error, or the result. *)
Definition throws (A : Type) : Type := js_error + A.

Definition try_bind {A B} (m : throws A) (k : A → throws B) : throws B :=
  match m with
  | inl e => inl e
  | inr a => k a
  end.

Notation "'let*' x ':=' m 'in' k" := (try_bind m (λ x, k))
  (at level 10, x name, m at level 100, k at level 200).

Module Http.
Import Js Props.

(** *** What the handler sends to the caller *)

Inductive payload :=
  | JsonBody (j : json)        (* [res.json(j)] *)
  | TextBody (s : list N)      (* [res.send(s)] *)
  | ErrorPage (msg : list N).  (* the page of Express's own error handler *)

Record response := { res_status : Z; res_body : payload }.

(** An object literal handed to [JSON.stringify]. *)
Definition object_literal (fields : list (string * value)) : json :=
  JObj (omap to_wire (list_to_map (prod_map str id <$> fields))).

Definition text (s : list N) : value := Data (JStr s).

(** [res.status(code).json({ error })] *)
Definition error_response (code : Z) (error : list N) : response :=
  {| res_status := code;
     res_body := JsonBody (object_literal [("error", text error)]) |}.

(** [res.status(code).json({ error, details })] *)
Definition detailed_error (code : Z) (error : list N) (details : value) : response :=
  {| res_status := code;
     res_body := JsonBody (object_literal [("error", text error);
                                           ("details", details)]) |}.

(** [res.json(j)] *)
Definition ok_response (j : json) : response :=
  {| res_status := 200; res_body := JsonBody j |}.

(** *** What the handler sends upstream *)

Record outbound := {
  out_url : list N;
  out_method : list N;
  out_headers : list (list N * list N);
  out_body : json                      (* the argument of [JSON.stringify] *)
}.

(** *** What the completion API answers

    The reply is typed by the schema of the API: an object that may carry
    [choices], a list of objects that may carry a [message], which may
    carry a string [content]; an error reply may carry a [message]. *)

Record api_message := { msg_content : option (list N) }.
Record api_choice := { choice_message : option api_message }.
Record api_body := {
  body_choices : option (list api_choice);
  body_message : option (list N)
}.

(** [await response.json()]: the promise rejects on a body that is not
    JSON; [JsonValue None] is the JSON text [null]. *)
Inductive json_result :=
  | JsonRejects (msg : list N)
  | JsonValue (data : option api_body).

Record api_response := {
  up_ok : bool;
  up_status : Z;
  up_statusText : list N;
  up_json : json_result
}.

(** [await fetch(...)] *)
Inductive fetch_result :=
  | Rejects (msg : list N)
  | Resolves (r : api_response).

(** *** A handler run

    A handler answers at once, or issues one fetch and answers from what
    comes back, or throws outside of any [try]. *)
Inductive action :=
  | Respond (r : response)
  | Fetch (o : outbound) (k : fetch_result → response)
  | Uncaught (e : js_error).

Definition outbound_calls (a : action) : list outbound :=
  match a with
  | Fetch o _ => [o]
  | Respond _ | Uncaught _ => []
  end.

(** The response once the upstream has answered [fr]; none when the
    handler threw. *)
Definition run (a : action) (fr : fetch_result) : option response :=
  match a with
  | Respond r => Some r
  | Fetch _ k => Some (k fr)
  | Uncaught _ => None
  end.

(** *** JavaScript fragments shared by the handlers *)

(** [ToString] of any value a property read can give. *)
Definition ToString_value (v : value) : list N :=
  match v with
  | Undefined => str "undefined"
  | Data j => ToString j
  | Function _ name => str "function " ++ name ++ str "() { [native code] }"
  | Prototype PObject => str "[object Object]"
  | Prototype PNumber => str "0"
  | Prototype PBoolean => str "false"
  | Prototype PArray | Prototype PString => []
  end.

(** [await response.json()] *)
Definition json_of (r : api_response) : throws (option api_body) :=
  match up_json r with
  | JsonRejects msg => inl (FetchError msg)
  | JsonValue d => inr d
  end.

(** [errorData.message || 'Unknown error from OpenRouter'] *)
Definition error_details (errorData : option api_body) : throws value :=
  match errorData with
  | None => inl (TypeError (str "Cannot read properties of null (reading 'message')"))
  | Some d =>
      match body_message d with
      | Some m => if bool_decide (m = []) then inr (text (str "Unknown error from OpenRouter"))
                  else inr (text m)
      | None => inr (text (str "Unknown error from OpenRouter"))
      end
  end.

(** The branch [if (!response.ok)] of every route; [label] is the text
    before the status text. *)
Definition relay_error (label : list N) (r : api_response) : throws response :=
  let* errorData := json_of r in
  let* details := error_details errorData in
  inr (detailed_error (up_status r) (label ++ up_statusText r) details).

(** The guard [data && data.choices && data.choices.length > 0 &&
    data.choices[0].message && data.choices[0].message.content] and the
    content it guards. *)
Definition reply_content (data : option api_body) : option (list N) :=
  d ← data;
  choices ← body_choices d;
  first ← head choices;
  m ← choice_message first;
  c ← msg_content m;
  if bool_decide (c = []) then None else Some c.

(** The outer [try { ... } catch (error)] of a route. *)
Definition catch_all (failure : list N) (body : throws response) : response :=
  match body with
  | inr r => r
  | inl error => detailed_error 500 failure (text (error_message error))
  end.

End Http.

(* ===================================================================== *)
(** ** The route handlers

    The handlers of [server.js] (lines 31 to 400); the sibling file repeats
    them word for word under its own CORS set-up. *)
(* ===================================================================== *)

Module Routes.
Import Js Props Http.

Definition OPENROUTER_API_URL : list N :=
  str "https://openrouter.ai/api/v1/chat/completions".
Definition MODEL_TO_USE : list N := str "openai/gpt-3.5-turbo".

(** What a request finds around it: [process.env], and the year that
    [new Date().getFullYear()] gives. *)
Record world := { env : gmap (list N) (list N); now : Z }.

(** The name of the credential variable. *)
Definition OPENROUTER_API_KEY : list N := str "OPENROUTER_API_KEY".

(** [checkApiKey(res)]: the key, or the response sent in its absence
    (the function then returns [false]). *)
Definition checkApiKey (w : world) : response + list N :=
  match env w !! OPENROUTER_API_KEY with
  | Some key =>
      if bool_decide (key = []) then
        inl (error_response 500 (str "Server configuration error: API Key missing."))
      else inr key
  | None =>
      inl (error_response 500 (str "Server configuration error: API Key missing."))
  end.

(** The request every route sends: [fetch(OPENROUTER_API_URL, { method,
    headers, body: JSON.stringify(body) })]. *)
Definition post (key : list N) (body : json) : outbound :=
  {| out_url := OPENROUTER_API_URL;
     out_method := str "POST";
     out_headers := [(str "Authorization", str "Bearer " ++ key);
                     (str "Content-Type", str "application/json")];
     out_body := body |}.

Definition message (role : string) (content : value) : json :=
  object_literal [("role", text (str role)); ("content", content)].

Definition number (m e : Z) : value := Data (JNum m e).

(** *** POST /api/search *)

Definition search_system : list N :=
  str "You are an AI research assistant. When asked a query, provide 2-3 concise, fictional search result-like summaries. Each summary should include a "
  ++ dquote ++ str "title" ++ dquote ++ str ", " ++ dquote ++ str "source" ++ dquote
  ++ str " (e.g., Journal, Institute, Blog, Year), and a brief "
  ++ dquote ++ str "snippet" ++ dquote
  ++ str " (2-3 sentences). Present this data as a JSON array of objects. DO NOT include any conversational text outside the JSON.".

Definition search_request (key : list N) (query : value) : outbound :=
  post key (object_literal [
    ("model", text MODEL_TO_USE);
    ("messages", Data (JArr [message "system" (text search_system);
                             message "user" query]));
    ("temperature", number 7 (-1));
    ("max_tokens", number 500 0)]).

(** [{ ...item, id: item.id || index + 1 }] *)
Definition with_id (index : nat) (item : json) : throws json :=
  let* id := get_prop item (str "id") in
  inr (JObj (omap to_wire
               (<[str "id" := if truthy id then id
                              else number (Z.of_nat index + 1) 0]>
                  (Data <$> spread item)))).

(** [items.map((item, index) => ...)], from index [index] on. *)
Fixpoint map_with_id (index : nat) (items : list json) : throws (list json) :=
  match items with
  | [] => inr []
  | item :: rest =>
      let* x := with_id index item in
      let* xs := map_with_id (S index) rest in
      inr (x :: xs)
  end.

(** The inner [try]: clean, parse, and give every item an id. *)
Definition parsed_results (rawContent : list N) : throws (list json) :=
  match JSON.parse (Fence.jsonString rawContent) with
  | None => inl (SyntaxError (str "Unexpected token in JSON"))
  | Some (JArr items) => map_with_id 0 items
  | Some JNull =>
      inl (TypeError (str "Cannot read properties of null (reading 'map')"))
  | Some _ => inl (TypeError (str "fetchedResults.map is not a function"))
  end.

(** The placeholder of the inner [catch]. *)
Definition parse_failure_result (year : Z) (query : value) (rawContent : list N) : json :=
  object_literal [
    ("id", number 1 0);
    ("title", text (str "AI Could Not Parse Results for " ++ dquote
                      ++ ToString_value query ++ dquote ++ str " (Backend Error)"));
    ("source", text (str "OpenRouter API Parsing Issue, "
                       ++ Number_toString year 0));
    ("snippet", text (str "The AI responded, but its output could not be formatted as expected by the backend. Raw response (truncated): "
                        ++ substring0 200 rawContent ++ str "..."))].

(** The placeholder of the [else] branch. *)
Definition no_content_result (year : Z) (query : value) : json :=
  object_literal [
    ("id", number 1 0);
    ("title", text (str "No Relevant AI Response for " ++ dquote
                      ++ ToString_value query ++ dquote ++ str " (Backend Search)"));
    ("source", text (str "OpenRouter API, " ++ Number_toString year 0));
    ("snippet", text (str "The AI did not provide any content for your search query via the backend."))].

Definition fetchedResults (year : Z) (query : value) (data : option api_body)
  : list json :=
  match reply_content data with
  | Some rawContent =>
      match parsed_results rawContent with
      | inr results => results
      | inl _ => [parse_failure_result year query rawContent]
      end
  | None => [no_content_result year query]
  end.

Definition search_reply (year : Z) (query : value) (fr : fetch_result) : response :=
  catch_all (str "Failed to fetch search results from OpenRouter.")
    match fr with
    | Rejects msg => inl (FetchError msg)
    | Resolves r =>
        if negb (up_ok r) then relay_error (str "OpenRouter API error: ") r
        else
          let* data := json_of r in
          inr (ok_response
                 (object_literal [("results", Data (JArr (fetchedResults year query data)))]))
    end.

Definition search (w : world) (body : json) : action :=
  match get_prop body (str "query") with
  | inl e => Uncaught e
  | inr query =>
      if negb (truthy query) then
        Respond (error_response 400 (str "Search query is required."))
      else
        match checkApiKey w with
        | inl r => Respond r
        | inr key => Fetch (search_request key query) (search_reply (now w) query)
        end
  end.

(** *** POST /api/extract and POST /api/insight

    The two routes differ in their texts and generation parameters. *)

Record passthrough := {
  field : string;            (* the required field of the body *)
  missing : string;          (* the 400 message *)
  system_prompt : string;
  user_prefix : string;      (* precedes two line feeds and the text *)
  temperature : Z * Z;
  max_tokens : Z;
  upstream_label : string;   (* opens the relayed upstream error *)
  output : string;           (* the key of the result *)
  no_content : string;       (* the 500 message for an empty reply *)
  failure : string           (* the 500 message of the outer catch *)
}.

Definition extract_route : passthrough := {|
  field := "textToExtract";
  missing := "Text to extract is required.";
  system_prompt := "You are an AI assistant specialized in extracting key information and structuring it into a concise outline. Format the outline using bullet points and sub-bullet points. Do NOT include any conversational text, only the outline.";
  user_prefix := "Create a concise outline from the following text:";
  temperature := (3, -1)%Z;
  max_tokens := 300;
  upstream_label := "OpenRouter API error during extraction: ";
  output := "outline";
  no_content := "AI did not provide outline content.";
  failure := "Failed to generate outline from OpenRouter."
|}.

Definition insight_route : passthrough := {|
  field := "textForInsight";
  missing := "Text for insight is required.";
  system_prompt := "You are an AI research assistant. Given a piece of text, identify the most significant, non-obvious, and actionable insight. Frame it as a concise, thought-provoking statement or a short paragraph. Do NOT include any conversational text outside of the insight itself.";
  user_prefix := "Generate a key insight from the following text:";
  temperature := (7, -1)%Z;
  max_tokens := 150;
  upstream_label := "OpenRouter API error during insight generation: ";
  output := "insight";
  no_content := "AI did not provide insight content.";
  failure := "Failed to generate insight from OpenRouter."
|}.

Definition passthrough_request (p : passthrough) (key : list N) (input : value) : outbound :=
  post key (object_literal [
    ("model", text MODEL_TO_USE);
    ("messages",
      Data (JArr [message "system" (text (str (system_prompt p)));
                  message "user" (text (str (user_prefix p) ++ newline ++ newline
                                          ++ ToString_value input))]));
    ("temperature", number (temperature p).1 (temperature p).2);
    ("max_tokens", number (max_tokens p) 0)]).

Definition passthrough_reply (p : passthrough) (fr : fetch_result) : response :=
  catch_all (str (failure p))
    match fr with
    | Rejects msg => inl (FetchError msg)
    | Resolves r =>
        if negb (up_ok r) then relay_error (str (upstream_label p)) r
        else
          let* data := json_of r in
          match reply_content data with
          | Some content => inr (ok_response (object_literal [(output p, text content)]))
          | None => inr (error_response 500 (str (no_content p)))
          end
    end.

Definition passthrough_handler (p : passthrough) (w : world) (body : json) : action :=
  match get_prop body (str (field p)) with
  | inl e => Uncaught e
  | inr input =>
      if negb (truthy input) then Respond (error_response 400 (str (missing p)))
      else
        match checkApiKey w with
        | inl r => Respond r
        | inr key => Fetch (passthrough_request p key input) (passthrough_reply p)
        end
  end.

Definition extract : world → json → action := passthrough_handler extract_route.
Definition insight : world → json → action := passthrough_handler insight_route.

(** *** POST /api/populate_form *)

Definition populate_system : list N :=
  str "You are an expert data extractor. Your task is to precisely answer given questions based ONLY on the provided source text. Respond strictly in the specified JSON format. If information for a question is not found, use an empty string as the value.".

(** The template literal [prompt]; [listing] is
    [questions.map(q => `- ${q}`).join('\n')]. *)
Definition prompt (sourceText : value) (questions : list json) : list N :=
  let listing := join newline ((λ q, str "- " ++ ToString q) <$> questions) in
  let q := dquote in
  str "Based on the following source text, answer each of the following questions concisely. Provide only the answer for each question, or leave it blank if the information is not directly present. Format your complete response as a JSON object where keys are the exact questions and values are the extracted answers. Ensure the JSON is valid and contains no extra text."
  ++ newline
  ++ newline
  ++ str "    Source Text:" ++ newline
  ++ str "    ---" ++ newline
  ++ str "    " ++ ToString_value sourceText ++ newline
  ++ str "    ---" ++ newline
  ++ newline
  ++ str "    Questions to Answer:" ++ newline
  ++ str "    " ++ listing ++ newline
  ++ newline
  ++ str "    Example JSON structure:" ++ newline
  ++ str "    {" ++ newline
  ++ str "      " ++ q ++ str "Question 1" ++ q ++ str ": " ++ q ++ str "Answer to Q1" ++ q ++ str "," ++ newline
  ++ str "      " ++ q ++ str "Question 2" ++ q ++ str ": " ++ q ++ str "Answer to Q2" ++ q ++ str "," ++ newline
  ++ str "      " ++ q ++ str "Question 3" ++ q ++ str ": " ++ q ++ q ++ newline
  ++ str "    }" ++ newline
  ++ str "    ".

Definition populate_request (key : list N) (sourceText : value) (questions : list json)
  : outbound :=
  post key (object_literal [
    ("model", text MODEL_TO_USE);
    ("messages", Data (JArr [message "system" (text populate_system);
                             message "user" (text (prompt sourceText questions))]));
    ("temperature", number 1 (-1));
    ("max_tokens", number 1000 0);
    ("response_format", Data (object_literal [("type", text (str "json_object"))]))]).

(** One turn of [questions.forEach(q => { finalPopulatedFields[q] =
    populatedFields[q] !== undefined ? populatedFields[q] : ''; })]. *)
Definition record_answer (populatedFields : json) (final : object) (q : json)
  : throws object :=
  let* answer := get_prop populatedFields (ToString q) in
  inr (assign final (ToString q)
         match answer with
         | Undefined => text []
         | _ => answer
         end).

Fixpoint forEach (populatedFields : json) (final : object) (questions : list json)
  : throws object :=
  match questions with
  | [] => inr final
  | q :: rest =>
      let* final' := record_answer populatedFields final q in
      forEach populatedFields final' rest
  end.

(** The inner [try]: clean, parse, and answer every question. *)
Definition finalPopulatedFields (rawContent : list N) (questions : list json)
  : throws object :=
  match JSON.parse (Fence.jsonString rawContent) with
  | None => inl (SyntaxError (str "Unexpected token in JSON"))
  | Some populatedFields => forEach populatedFields empty_object questions
  end.

Definition populate_reply (questions : list json) (fr : fetch_result) : response :=
  catch_all (str "Failed to populate form from OpenRouter.")
    match fr with
    | Rejects msg => inl (FetchError msg)
    | Resolves r =>
        if negb (up_ok r) then
          relay_error (str "OpenRouter API error during form population: ") r
        else
          let* data := json_of r in
          match reply_content data with
          | Some rawContent =>
              match finalPopulatedFields rawContent questions with
              | inr final =>
                  inr (ok_response
                         (object_literal
                            [("populated_fields", Data (JObj (stringify_object final)))]))
              | inl _ =>
                  inr (error_response 500
                         (str "AI response parsing failed. Raw AI output (truncated): "
                            ++ substring0 200 rawContent ++ str "..."))
              end
          | None =>
              inr (error_response 500 (str "AI did not provide content for form population."))
          end
    end.

(** The elements of an array, for use behind [Array.isArray]. *)
Definition elements (v : value) : list json :=
  match v with
  | Data (JArr l) => l
  | _ => []
  end.

(** [!sourceText || !questions || !Array.isArray(questions) ||
    questions.length === 0] *)
Definition populate_invalid (sourceText questions : value) : bool :=
  negb (truthy sourceText) || negb (truthy questions)
  || negb (isArray questions) || bool_decide (length (elements questions) = O).

Definition populate_form (w : world) (body : json) : action :=
  match get_prop body (str "sourceText"), get_prop body (str "questions") with
  | inl e, _ | _, inl e => Uncaught e
  | inr sourceText, inr questions =>
      if populate_invalid sourceText questions then
        Respond (error_response 400 (str "Source text and a list of questions are required."))
      else
        match checkApiKey w with
        | inl r => Respond r
        | inr key =>
            Fetch (populate_request key sourceText (elements questions))
                  (populate_reply (elements questions))
        end
  end.

(** *** POST /api/chat *)

Definition chat_system : list N :=
  str "You are a helpful and knowledgeable AI research assistant. Provide concise, accurate, and relevant information. If asked about something beyond your knowledge, admit it gracefully. Keep responses helpful and on topic.".

Definition chat_request (key : list N) (messages : list json) : outbound :=
  post key (object_literal [
    ("model", text MODEL_TO_USE);
    ("messages", Data (JArr (message "system" (text chat_system) :: messages)));
    ("temperature", number 7 (-1));
    ("max_tokens", number 500 0)]).

Definition chat_reply (fr : fetch_result) : response :=
  catch_all (str "Failed to get chat response from OpenRouter.")
    match fr with
    | Rejects msg => inl (FetchError msg)
    | Resolves r =>
        if negb (up_ok r) then relay_error (str "OpenRouter API error during chat: ") r
        else
          let* data := json_of r in
          match reply_content data with
          | Some content => inr (ok_response (object_literal [("reply", text content)]))
          | None =>
              inr (error_response 500 (str "AI did not provide content for chat response."))
          end
    end.

(** [!messages || !Array.isArray(messages) || messages.length === 0] *)
Definition chat_invalid (messages : value) : bool :=
  negb (truthy messages) || negb (isArray messages)
  || bool_decide (length (elements messages) = O).

Definition chat (w : world) (body : json) : action :=
  match get_prop body (str "messages") with
  | inl e => Uncaught e
  | inr messages =>
      if chat_invalid messages then Respond (error_response 400 (str "Messages array is required for chat."))
      else
        match checkApiKey w with
        | inl r => Respond r
        | inr key => Fetch (chat_request key (elements messages)) chat_reply
        end
  end.

(** *** GET / *)

Definition root : action :=
  Respond {| res_status := 200;
             res_body := TextBody (str "Research Assistant Backend is running!") |}.

(** *** The five POST routes *)

Inductive route := Search | Extract | Insight | PopulateForm | Chat.

Definition path (r : route) : list N :=
  str match r with
      | Search => "/api/search"
      | Extract => "/api/extract"
      | Insight => "/api/insight"
      | PopulateForm => "/api/populate_form"
      | Chat => "/api/chat"
      end.

Definition handler (r : route) : world → json → action :=
  match r with
  | Search => search
  | Extract => extract
  | Insight => insight
  | PopulateForm => populate_form
  | Chat => chat
  end.

(** The test each handler opens with: whether the body lacks what the
    route requires. *)
Definition invalid_input (r : route) (body : json) : throws bool :=
  match r with
  | Search =>
      let* query := get_prop body (str "query") in inr (negb (truthy query))
  | Extract =>
      let* textToExtract := get_prop body (str "textToExtract") in
      inr (negb (truthy textToExtract))
  | Insight =>
      let* textForInsight := get_prop body (str "textForInsight") in
      inr (negb (truthy textForInsight))
  | PopulateForm =>
      let* sourceText := get_prop body (str "sourceText") in
      let* questions := get_prop body (str "questions") in
      inr (populate_invalid sourceText questions)
  | Chat =>
      let* messages := get_prop body (str "messages") in inr (chat_invalid messages)
  end.

End Routes.

(* ===================================================================== *)
(** ** The two files: CORS set-up, application, start-up *)
(* ===================================================================== *)

(** The [cors] middleware is a package, not code of the repository; this
    is its handling of the [origin] and [credentials] options. *)
Module Cors.

Inductive origin_option :=
  | AnyOrigin      (* the default, ['*'] *)
  | OriginFunction (f : option (list N) → option js_error * bool).

Record options := {
  origin : origin_option;
  methods : list string;
  credentials : bool;
  allowedHeaders : list string
}.

(** [cors()] *)
Definition defaults : options := {|
  origin := AnyOrigin;
  methods := ["GET"; "HEAD"; "PUT"; "PATCH"; "POST"; "DELETE"];
  credentials := false;
  allowedHeaders := []
|}.

Inductive verdict :=
  | Allowed (allow_origin : option (list N)) (allow_credentials : bool)
  | Unmarked                 (* the request goes on without CORS headers *)
  | Refused (e : js_error).  (* [next(err)] *)

(** The middleware on a request whose [Origin] header is [requestOrigin]
    ([None] when the header is absent). *)
Definition middleware (o : options) (requestOrigin : option (list N)) : verdict :=
  match origin o with
  | AnyOrigin => Allowed (Some (str "*")) (credentials o)
  | OriginFunction f =>
      match f requestOrigin with
      | (Some err, _) => Refused err
      | (None, true) => Allowed requestOrigin (credentials o)
      | (None, false) => Unmarked
      end
  end.

End Cors.

Module App.
Import Js Http Routes.

(** The routes both files register. *)
Inductive endpoint :=
  | Root                 (* GET / *)
  | Api (r : route).     (* POST (path r) *)

Definition dispatch (e : endpoint) (w : world) (body : json) : action :=
  match e with
  | Root => root
  | Api r => handler r w body
  end.

(** [app.use(cors(o)); app.use(express.json());] and the routes. An error
    passed to [next] reaches Express's error handler, which answers 500. *)
Definition serve (o : Cors.options) (w : world) (requestOrigin : option (list N))
    (e : endpoint) (body : json) : action :=
  match Cors.middleware o requestOrigin with
  | Cors.Refused err =>
      Respond {| res_status := 500; res_body := ErrorPage (error_message err) |}
  | Cors.Allowed _ _ | Cors.Unmarked => dispatch e w body
  end.

(** [const PORT = process.env.PORT || 5000] *)
Definition PORT (env : gmap (list N) (list N)) : json :=
  match env !! str "PORT" with
  | Some p => if bool_decide (p = []) then JNum 5000 0 else JStr p
  | None => JNum 5000 0
  end.

(** [app.listen(PORT, ...)]: the port, and the two lines the callback
    logs. Nothing here depends on the key being present. *)
Record server := { port : json; startup_log : list (list N) }.

Definition listen (env : gmap (list N) (list N)) : server := {|
  port := PORT env;
  startup_log := [
    str "Research Assistant Backend server listening on port " ++ ToString (PORT env);
    match env !! OPENROUTER_API_KEY with
    | Some (_ :: _) => str "OpenRouter API Key is loaded."
    | _ => str "OpenRouter API Key IS NOT loaded. Please check your .env file."
    end]
|}.

End App.

(** [server.js] *)
Module ServerJs.

(** [app.use(cors())] *)
Definition corsOptions : Cors.options := Cors.defaults.

Definition app := App.serve corsOptions.

End ServerJs.

(** The sibling file, with the origin allow-list. *)
Module Part000.

Definition allowedOrigins : list (list N) :=
  [str "http://localhost:3000";
   str "https://research-assistant-tims-projects-d59677e7.vercel.app"].

(** The [origin] function: [if (!origin || allowedOrigins.includes(origin))
    callback(null, true) else callback(new Error('Not allowed by CORS'),
    false)]. *)
Definition origin (requestOrigin : option (list N)) : option js_error * bool :=
  match requestOrigin with
  | None => (None, true)
  | Some o =>
      if bool_decide (o = []) || bool_decide (o ∈ allowedOrigins) then (None, true)
      else (Some (Error (str "Not allowed by CORS")), false)
  end.

Definition corsOptions : Cors.options := {|
  Cors.origin := Cors.OriginFunction origin;
  Cors.methods := ["GET"; "POST"; "PUT"; "DELETE"; "OPTIONS"];
  Cors.credentials := true;
  Cors.allowedHeaders := ["Content-Type"; "Authorization"]
|}.

Definition app := App.serve corsOptions.

End Part000.

(* ===================================================================== *)
(** ** Vocabulary of the properties *)
(* ===================================================================== *)

Module Contract.
Import Js Props Http Routes.

(** The ways a body can lack what a route requires. *)
Definition required_input_omitted (r : route) (b : gmap (list N) json) : Prop :=
  match r with
  | Search => b !! str "query" = None
  | Extract => b !! str "textToExtract" = None
  | Insight => b !! str "textForInsight" = None
  | PopulateForm =>
      b !! str "sourceText" = None
      ∨ b !! str "questions" = None
      ∨ (∃ v, b !! str "questions" = Some v ∧ ∀ l, v ≠ JArr l)
      ∨ b !! str "questions" = Some (JArr [])
  | Chat =>
      b !! str "messages" = None
      ∨ (∃ v, b !! str "messages" = Some v ∧ ∀ l, v ≠ JArr l)
      ∨ b !! str "messages" = Some (JArr [])
  end.

(** The message of the 400 response of each route. *)
Definition required_message (r : route) : list N :=
  str match r with
      | Search => "Search query is required."
      | Extract => "Text to extract is required."
      | Insight => "Text for insight is required."
      | PopulateForm => "Source text and a list of questions are required."
      | Chat => "Messages array is required for chat."
      end.

Definition API_KEY_MISSING : list N :=
  str "Server configuration error: API Key missing.".

(** The credential is absent: unset, or set to the empty string. *)
Definition credential_absent (w : world) : Prop :=
  env w !! OPENROUTER_API_KEY = None ∨ env w !! OPENROUTER_API_KEY = Some [].

(** The credential is present, with value [key]. *)
Definition credential (w : world) (key : list N) : Prop :=
  env w !! OPENROUTER_API_KEY = Some key ∧ key ≠ [].

(** The upstream call succeeded and its body decoded to [data]. *)
Definition succeeded (r : api_response) (data : option api_body) : Prop :=
  up_ok r = true ∧ up_json r = JsonValue data.

(** A successful upstream answer whose first choice carries [content]. *)
Definition completion_data (content : list N) : option api_body :=
  Some {| body_choices :=
            Some [{| choice_message := Some {| msg_content := Some content |} |}];
          body_message := None |}.

Definition completion_response (content : list N) : api_response :=
  {| up_ok := true; up_status := 200; up_statusText := str "OK";
     up_json := JsonValue (completion_data content) |}.

Definition completion (content : list N) : fetch_result :=
  Resolves (completion_response content).








End Contract.

(** Concrete requests and replies, for the examples. *)
Module Samples.
Import Js Props Http Routes Contract.

Definition cats_request : gmap (list N) json := {[ str "query" := JStr (str "cats") ]}.
Definition keyed_world : world :=
  {| env := {[ OPENROUTER_API_KEY := str "sk-test" ]}; now := 2025 |}.

(** The reply [[{"title":"A"},{"title":"B"}]]. *)
Definition two_titles : list N :=
  str "[{" ++ dquote ++ str "title" ++ dquote ++ str ":" ++ dquote ++ str "A" ++ dquote
  ++ str "},{" ++ dquote ++ str "title" ++ dquote ++ str ":" ++ dquote ++ str "B"
  ++ dquote ++ str "}]".


Definition form_request : gmap (list N) json :=
  {[ str "sourceText" := JStr (str "Alpha is x.");
     str "questions" := JArr [JStr (str "A"); JStr (str "B")] ]}.

(** The reply [{"A":"x"}]. *)
Definition reply_A : list N :=
  str "{" ++ dquote ++ str "A" ++ dquote ++ str ":" ++ dquote ++ str "x" ++ dquote
  ++ str "}".

(** The reply [{"A":"x","C":"y"}]. *)
Definition reply_A_C : list N :=
  str "{" ++ dquote ++ str "A" ++ dquote ++ str ":" ++ dquote ++ str "x" ++ dquote
  ++ str "," ++ dquote ++ str "C" ++ dquote ++ str ":" ++ dquote ++ str "y" ++ dquote
  ++ str "}".


(** The reply [[{"title":"A"}]] between a tagged fence and a closing fence. *)
Definition tagged_reply : list N :=
  str "```json" ++ newline ++ str "[{" ++ dquote ++ str "title" ++ dquote ++ str ":"
  ++ dquote ++ str "A" ++ dquote ++ str "}]" ++ newline ++ str "```".

(** An upstream refusal: status 429 with a message. *)
Definition rate_limited : fetch_result :=
  Resolves {| up_ok := false; up_status := 429; up_statusText := str "Too Many Requests";
              up_json := JsonValue (Some {| body_choices := None;
                                            body_message := Some (str "slow down") |}) |}.


(** A chat request that asks for its own temperature and token limit. *)
Definition greedy_chat : gmap (list N) json :=
  {[ str "messages" := JArr [JStr (str "hi")];
     str "temperature" := JNum 2 0;
     str "max_tokens" := JNum 100000 0 ]}.

(** The same request without the two settings. *)
Definition plain_chat : gmap (list N) json :=
  {[ str "messages" := JArr [JStr (str "hi")] ]}.

End Samples.

(** The answers of the routes, named for the statements on all five. *)
Module Outcome.
Import Js Props Http Routes Contract.

(** The [error] text of a route's outer [catch]. *)
Definition failure_message (r : route) : list N :=
  str match r with
      | Search => "Failed to fetch search results from OpenRouter."
      | Extract => "Failed to generate outline from OpenRouter."
      | Insight => "Failed to generate insight from OpenRouter."
      | PopulateForm => "Failed to populate form from OpenRouter."
      | Chat => "Failed to get chat response from OpenRouter."
      end.

(** What precedes the upstream status text when a route relays an upstream
    failure. *)
Definition relay_label (r : route) : list N :=
  str match r with
      | Search => "OpenRouter API error: "
      | Extract => "OpenRouter API error during extraction: "
      | Insight => "OpenRouter API error during insight generation: "
      | PopulateForm => "OpenRouter API error during form population: "
      | Chat => "OpenRouter API error during chat: "
      end.

(** The [error] text of the routes that fail when the reply has no
    content; the search route has none. *)
Definition no_content_message (r : route) : option (list N) :=
  match r with
  | Search => None
  | Extract => Some (str "AI did not provide outline content.")
  | Insight => Some (str "AI did not provide insight content.")
  | PopulateForm => Some (str "AI did not provide content for form population.")
  | Chat => Some (str "AI did not provide content for chat response.")
  end.

(** The one key of a route's successful answer. *)
Definition result_key (r : route) : list N :=
  str match r with
      | Search => "results"
      | Extract => "outline"
      | Insight => "insight"
      | PopulateForm => "populated_fields"
      | Chat => "reply"
      end.

(** The [details] of a relayed upstream failure:
    [errorData.message || 'Unknown error from OpenRouter']. *)
Definition relayed_details (errorData : api_body) : list N :=
  match body_message errorData with
  | Some (c :: m) => c :: m
  | Some [] | None => str "Unknown error from OpenRouter"
  end.

(** The fields of the body a route reads. *)
Definition required_fields (r : route) : list (list N) :=
  str <$>
  match r with
  | Search => ["query"]
  | Extract => ["textToExtract"]
  | Insight => ["textForInsight"]
  | PopulateForm => ["sourceText"; "questions"]
  | Chat => ["messages"]
  end%string.

(** The [temperature] and [max_tokens] each route sends. *)
Definition generation (r : route) : json * json :=
  match r with
  | Search => (JNum 7 (-1), JNum 500 0)
  | Extract => (JNum 3 (-1), JNum 300 0)
  | Insight => (JNum 7 (-1), JNum 150 0)
  | PopulateForm => (JNum 1 (-1), JNum 1000 0)
  | Chat => (JNum 7 (-1), JNum 500 0)
  end.

(** A destructured field of the body. *)
Definition field_value (body : json) (k : list N) : value :=
  match get_prop body k with
  | inr v => v
  | inl _ => Undefined
  end.

(** The upstream call a route issues with the credential [key]. *)
Definition request_of (r : route) (key : list N) (body : json) : outbound :=
  match r with
  | Search => search_request key (field_value body (str "query"))
  | Extract => passthrough_request extract_route key (field_value body (str "textToExtract"))
  | Insight => passthrough_request insight_route key (field_value body (str "textForInsight"))
  | PopulateForm =>
      populate_request key (field_value body (str "sourceText"))
        (elements (field_value body (str "questions")))
  | Chat => chat_request key (elements (field_value body (str "messages")))
  end.

(** What a route does with the upstream answer once it has fetched. *)
Definition continuation (r : route) (w : world) (body : json) : fetch_result → response :=
  match r with
  | Search => search_reply (now w) (field_value body (str "query"))
  | Extract => passthrough_reply extract_route
  | Insight => passthrough_reply insight_route
  | PopulateForm => populate_reply (elements (field_value body (str "questions")))
  | Chat => chat_reply
  end.

(** The kinds of answer a route can give to a request, given what the
    upstream did: the refusals before the fetch, the outer [catch], the
    relay of an upstream failure, a reply that cannot be shaped, and
    success. *)
Inductive answered (r : route) (fr : fetch_result) : response → Prop :=
  | bad_request : answered r fr (error_response 400 (required_message r))
  | no_credential : answered r fr (error_response 500 API_KEY_MISSING)
  | exception msg :
      answered r fr (detailed_error 500 (failure_message r) (text msg))
  | relayed up details :
      fr = Resolves up → up_ok up = false → details ≠ [] →
      answered r fr
        (detailed_error (up_status up) (relay_label r ++ up_statusText up) (text details))
  | unshaped msg :
      r ≠ Search → msg ≠ [] → (∃ up, fr = Resolves up ∧ up_ok up = true) →
      answered r fr (error_response 500 msg)
  | success v :
      (∃ up, fr = Resolves up ∧ up_ok up = true) →
      answered r fr (ok_response (JObj {[ result_key r := v ]})).

(** The text of the form route's answer to a reply it cannot use. *)
Definition parsing_failed (rawContent : list N) : list N :=
  str "AI response parsing failed. Raw AI output (truncated): "
  ++ substring0 200 rawContent ++ str "...".


(** An upstream refusal with status [status], status text [statusText]
    and, when [m] is given, a [message]. *)
Definition refusal (status : Z) (statusText : list N) (m : option (list N))
  : api_response :=
  {| up_ok := false; up_status := status; up_statusText := statusText;
     up_json := JsonValue (Some {| body_choices := None; body_message := m |}) |}.

(** What a body must hold for a route to go on: the required field with
    a truthy value, and for the lists a non-empty array. *)
Definition required_input_present (r : route) (b : gmap (list N) json) : Prop :=
  match r with
  | Search => ∃ query, b !! str "query" = Some query ∧ truthy_json query = true
  | Extract => ∃ t, b !! str "textToExtract" = Some t ∧ truthy_json t = true
  | Insight => ∃ t, b !! str "textForInsight" = Some t ∧ truthy_json t = true
  | PopulateForm =>
      ∃ sourceText q questions,
        b !! str "sourceText" = Some sourceText ∧ truthy_json sourceText = true
        ∧ b !! str "questions" = Some (JArr (q :: questions))
  | Chat => ∃ m messages, b !! str "messages" = Some (JArr (m :: messages))
  end.


End Outcome.

(* ===================================================================== *)
(** ** Lemmas on the JavaScript fragments *)
(* ===================================================================== *)

(** Closed membership questions on the prototype tables. *)
Ltac not_member := apply (bool_decide_eq_false_1 _); vm_compute; reflexivity.
Ltac is_member := apply (bool_decide_eq_true_1 _); vm_compute; reflexivity.

Module Facts.
Import Js Props Http Routes Contract.

(** On an object, a name no prototype defines is read from the own
    properties alone. *)
Lemma get_prop_object (b : gmap (list N) json) (k : list N) :
  k ∉ members PObject →
  get_prop (JObj b) k = inr (from_option Data Undefined (b !! k)).
Proof.
  intros Hk. unfold get_prop, own_property.
  destruct (b !! k) as [v|]; [done|]. cbn [from_option proto_chain inherited].
  by rewrite bool_decide_eq_false_2.
Qed.

Lemma field_not_member (k : list N) :
  k ∈ str <$> ["query"; "textToExtract"; "textForInsight"; "sourceText";
               "questions"; "messages"; "id"]%string →
  k ∉ members PObject.
Proof.
  intros Hk. rewrite !list_elem_of_fmap in Hk. destruct Hk as (s & -> & Hs).
  repeat (apply elem_of_cons in Hs as [->|Hs]; [not_member|]).
  by apply elem_of_nil in Hs.
Qed.


(** Reading a field of the request body. *)
Lemma read_field (b : gmap (list N) json) (k : string) :
  str k ∈ str <$> ["query"; "textToExtract"; "textForInsight"; "sourceText";
                   "questions"; "messages"; "id"]%string →
  get_prop (JObj b) (str k) = inr (from_option Data Undefined (b !! str k)).
Proof. intros Hk. by apply get_prop_object, field_not_member. Qed.

Lemma checkApiKey_absent (w : world) :
  credential_absent w → checkApiKey w = inl (error_response 500 API_KEY_MISSING).
Proof. unfold checkApiKey. by intros [-> | ->]. Qed.

Lemma checkApiKey_present (w : world) (key : list N) :
  credential w key → checkApiKey w = inr key.
Proof.
  unfold checkApiKey. intros [-> Hkey]. by rewrite bool_decide_eq_false_2.
Qed.

Lemma required_message_inj (r r' : route) :
  required_message r' = required_message r → r' = r.
Proof. destruct r, r'; first [reflexivity | intros H; vm_compute in H; discriminate H]. Qed.

End Facts.

(* ===================================================================== *)
(** ** The fragments at work *)
(* ===================================================================== *)

Module Behaviour.
Import Js Props Http Routes Contract Samples.

Example parse_nested :
  JSON.parse (str " [1, 2.50e3, {}, [[]], true, null] ")
  = Some (JArr [JNum 1 0; JNum 250 1; JObj ∅; JArr [JArr []]; JBool true; JNull]).
Proof. vm_compute. reflexivity. Qed.

Example parse_rejects :
  JSON.parse (str "[1, ]") = None ∧ JSON.parse (str "01") = None
  ∧ JSON.parse (str "1.") = None ∧ JSON.parse (str "{a:1}") = None
  ∧ JSON.parse (str "nul") = None ∧ JSON.parse (str "[1] x") = None.
Proof. split_and!; vm_compute; reflexivity. Qed.

Example parse_keeps_last_duplicate :
  JSON.parse (str "{" ++ dquote ++ str "a" ++ dquote ++ str ":1," ++ dquote ++ str "a"
              ++ dquote ++ str ":2}")
  = Some (JObj {[ str "a" := JNum 2 0 ]}).
Proof. vm_compute. reflexivity. Qed.

Example tagged_fence_is_stripped :
  Fence.jsonString tagged_reply
  = str "[{" ++ dquote ++ str "title" ++ dquote ++ str ":" ++ dquote ++ str "A"
    ++ dquote ++ str "}]".
Proof. vm_compute. reflexivity. Qed.

Example search_through_a_tagged_fence :
  run (search keyed_world (JObj cats_request)) (completion tagged_reply)
  = Some (ok_response (JObj {[ str "results" :=
            JArr [JObj {[ str "title" := JStr (str "A"); str "id" := JNum 1 0 ]}] ]})).
Proof. vm_compute. reflexivity. Qed.

Example upstream_status_is_relayed :
  run (search keyed_world (JObj cats_request)) rate_limited
  = Some {| res_status := 429;
            res_body := JsonBody (JObj {[
              str "error" := JStr (str "OpenRouter API error: Too Many Requests");
              str "details" := JStr (str "slow down") ]}) |}.
Proof. vm_compute. reflexivity. Qed.

Example fetch_failure_is_a_500 :
  run (search keyed_world (JObj cats_request)) (Rejects (str "socket hang up"))
  = Some {| res_status := 500;
            res_body := JsonBody (JObj {[
              str "error" := JStr (str "Failed to fetch search results from OpenRouter.");
              str "details" := JStr (str "socket hang up") ]}) |}.
Proof. vm_compute. reflexivity. Qed.

Example outline_is_passed_through :
  run (extract keyed_world (JObj {[ str "textToExtract" := JStr (str "text") ]}))
      (completion (str "- a" ++ newline ++ str "  - b"))
  = Some (ok_response (JObj {[ str "outline" :=
            JStr (str "- a" ++ newline ++ str "  - b") ]})).
Proof. vm_compute. reflexivity. Qed.

Example zero_is_falsy :
  truthy_json (JNum 0 0) = false ∧ truthy_json (JNum 1 (-400)) = false
  ∧ truthy_json (JNum 5 (-324)) = true ∧ truthy_json (JStr []) = false
  ∧ truthy_json (JArr []) = true.
Proof. split_and!; vm_compute; reflexivity. Qed.

End Behaviour.

(* ===================================================================== *)
(** ** The fuel of the JSON parser *)
(* ===================================================================== *)

Module JsonFacts.
Import JSON.

Lemma skip_ws_length (s : list N) : (length (skip_ws s) ≤ length s)%nat.
Proof.
  induction s as [|c s IH]; [done|]. cbn [skip_ws].
  destruct (is_ws c); cbn [length]; lia.
Qed.

Lemma skip_ws_cons_length (s r : list N) (c : N) :
  skip_ws s = c :: r → (length r < length s)%nat.
Proof. intros H. pose proof (skip_ws_length s) as Hl. rewrite H in Hl. cbn in Hl. lia. Qed.

Lemma span_digits_length (s : list N) (acc : N) (count : nat) v n r :
  span_digits s acc count = (v, n, r) →
  (length r + n = length s + count)%nat.
Proof.
  revert acc count. induction s as [|c s IH]; intros acc count; cbn [span_digits].
  - intros [= <- <- <-]. done.
  - destruct (digit_val c) as [d|].
    + intros H. apply IH in H. cbn [length]. lia.
    + intros [= <- <- <-]. done.
Qed.

Lemma parse_sign_length (plus_too : bool) (s : list N) neg r :
  parse_sign plus_too s = (neg, r) → (length r ≤ length s)%nat.
Proof.
  destruct s as [|c s]; cbn [parse_sign]; [by intros [= <- <-]|].
  destruct (c =? 45); [intros [= <- <-]; cbn; lia|].
  destruct (plus_too && (c =? 43)); intros [= <- <-]; cbn; lia.
Qed.

Lemma parse_int_length (s : list N) v r :
  parse_int s = Some (v, r) → (length r < length s)%nat.
Proof.
  destruct s as [|c s]; cbn [parse_int]; [done|].
  destruct (c =? 48); [intros [= <- <-]; cbn; lia|].
  destruct (span_digits (c :: s) 0 0) as [[v' n] r'] eqn:E.
  apply span_digits_length in E. case_bool_decide; [done|].
  intros [= <- <-]. lia.
Qed.

Lemma parse_frac_length (iv : N) (s : list N) v n r :
  parse_frac iv s = Some (v, n, r) → (length r ≤ length s)%nat.
Proof.
  destruct s as [|c s]; cbn [parse_frac]; [by intros [= <- <- <-]|].
  destruct (c =? 46); [|by intros [= <- <- <-]].
  destruct (span_digits s iv 0) as [[v' n'] r'] eqn:E.
  apply span_digits_length in E. case_bool_decide; [done|].
  intros [= <- <- <-]. cbn [length]. lia.
Qed.

Lemma parse_exp_length (s : list N) v r :
  parse_exp s = Some (v, r) → (length r ≤ length s)%nat.
Proof.
  destruct s as [|c s]; cbn [parse_exp]; [by intros [= <- <-]|].
  destruct ((c =? 101) || (c =? 69)); [|by intros [= <- <-]].
  destruct (parse_sign true s) as [neg r1] eqn:Es.
  apply parse_sign_length in Es.
  destruct (span_digits r1 0 0) as [[v' n'] r2] eqn:E.
  apply span_digits_length in E. case_bool_decide; [done|].
  intros [= <- <-]. cbn [length]. lia.
Qed.

Lemma parse_number_length (s : list N) v r :
  parse_number s = Some (v, r) → (length r < length s)%nat.
Proof.
  unfold parse_number. destruct (parse_sign false s) as [neg s1] eqn:Es.
  apply parse_sign_length in Es.
  destruct (parse_int s1) as [[iv s2]|] eqn:Ei; [|done]. apply parse_int_length in Ei.
  cbn. destruct (parse_frac iv s2) as [[[mv fn] s3]|] eqn:Ef; [|done].
  apply parse_frac_length in Ef.
  cbn. destruct (parse_exp s3) as [[ev s4]|] eqn:Ee; [|done].
  apply parse_exp_length in Ee. cbn. intros [= <- <-]. lia.
Qed.

Lemma parse_chars_length (s acc : list N) k r :
  parse_chars s acc = Some (k, r) → (length r < length s)%nat.
Proof.
  remember (length s) as n eqn:Hn. revert s acc Hn.
  induction (lt_wf n) as [n _ IH]. intros s acc ->.
  destruct s as [|c s]; cbn [parse_chars]; [done|].
  destruct (c =? 34); [intros [= <- <-]; cbn; lia|].
  destruct (c =? 92).
  - destruct s as [|e s]; [done|]. destruct (escaped e) as [x|].
    + intros H. apply (IH (length s)) in H; cbn [length] in *; lia.
    + destruct (e =? 117); [|done].
      destruct s as [|h1 [|h2 [|h3 [|h4 s]]]]; try done.
      destruct (hex_val h1), (hex_val h2), (hex_val h3), (hex_val h4); try done.
      intros H. apply (IH (length s)) in H; cbn [length] in *; lia.
  - destruct (c <? 32); [done|].
    intros H. apply (IH (length s)) in H; cbn [length] in *; lia.
Qed.

Lemma strip_prefix_length (p s r : list N) :
  strip_prefix p s = Some r → length s = (length p + length r)%nat.
Proof.
  revert s. induction p as [|a p IH]; intros s; cbn [strip_prefix].
  - by intros [= ->].
  - destruct s as [|b s]; [done|]. destruct (a =? b); [|done].
    intros H. apply IH in H. cbn [length]. lia.
Qed.

Lemma parse_word_length (word : string) (v : json) (s : list N) v' r :
  (0 < length (str word))%nat →
  parse_word word v s = Some (v', r) → (length r < length s)%nat.
Proof.
  intros Hw. unfold parse_word.
  destruct (strip_prefix (str word) s) as [r'|] eqn:E; [|done].
  apply strip_prefix_length in E. cbn. intros [= <- <-]. lia.
Qed.

Section Loops.
(** The loops over elements and members, for a value parser that reads at
    least one character whenever it succeeds. *)
Variable pv : list N → option (json * list N).
Hypothesis pv_consuming : consuming pv.

Lemma parse_elements_length (n : nat) (s : list N) (acc l : list json) r :
  parse_elements pv n s acc = Some (l, r) → (length r < length s)%nat.
Proof.
  revert s acc. induction n as [|n IH]; intros s acc; [done|].
  cbn [parse_elements]. destruct (pv s) as [[v r0]|] eqn:E; [|done].
  apply pv_consuming in E. cbn. destruct (skip_ws r0) as [|c r'] eqn:Ews; [done|].
  apply skip_ws_cons_length in Ews.
  destruct (c =? 44); [intros H; apply IH in H; lia|].
  destruct (c =? 93); [|done]. intros [= <- <-]. lia.
Qed.

Lemma parse_members_length (n : nat) (s : list N) (acc o : gmap (list N) json) r :
  parse_members pv n s acc = Some (o, r) → (length r < length s)%nat.
Proof.
  revert s acc. induction n as [|n IH]; intros s acc; [done|].
  cbn [parse_members]. destruct (skip_ws s) as [|q r0] eqn:E0; [done|].
  apply skip_ws_cons_length in E0. destruct (q =? 34); [|done].
  destruct (parse_chars r0 []) as [[k r1]|] eqn:E1; [|done].
  apply parse_chars_length in E1. cbn.
  destruct (skip_ws r1) as [|colon r2] eqn:E2; [done|].
  apply skip_ws_cons_length in E2. destruct (colon =? 58); [|done].
  destruct (pv r2) as [[v r3]|] eqn:E3; [|done]. apply pv_consuming in E3. cbn.
  destruct (skip_ws r3) as [|c r4] eqn:E4; [done|].
  apply skip_ws_cons_length in E4.
  destruct (c =? 44); [intros H; apply IH in H; lia|].
  destruct (c =? 125); [|done]. intros [= <- <-]. lia.
Qed.

Lemma consuming_nil : pv [] = None.
Proof.
  destruct (pv []) as [[v r]|] eqn:E; [|done].
  apply pv_consuming in E. cbn in E. lia.
Qed.

(** Beyond the length of the text, the bound on the number of elements
    and the choice of the value parser below that length do not matter. *)
Variable pv' : list N → option (json * list N).

Lemma parse_elements_fuel (n n' : nat) (s : list N) (acc : list json) :
  (∀ s', (length s' ≤ length s)%nat → pv' s' = pv s') →
  (length s ≤ n)%nat → (length s ≤ n')%nat →
  parse_elements pv' n' s acc = parse_elements pv n s acc.
Proof.
  revert n' s acc. induction n as [|n IH]; intros n' s acc Hext Hn Hn'.
  - destruct s; [|cbn in Hn; lia].
    destruct n' as [|n']; [done|]. cbn [parse_elements].
    by rewrite Hext, consuming_nil.
  - destruct n' as [|n'].
    { destruct s; [|cbn in Hn'; lia]. cbn [parse_elements].
      by rewrite consuming_nil. }
    cbn [parse_elements]. rewrite Hext by done.
    destruct (pv s) as [[v r]|] eqn:E; [|done]. apply pv_consuming in E. cbn.
    destruct (skip_ws r) as [|c r'] eqn:Ews; [done|].
    apply skip_ws_cons_length in Ews.
    destruct (c =? 44); [|done].
    apply IH; [|lia|lia]. intros s' Hs'. apply Hext. lia.
Qed.

Lemma parse_members_fuel (n n' : nat) (s : list N) (acc : gmap (list N) json) :
  (∀ s', (length s' ≤ length s)%nat → pv' s' = pv s') →
  (length s ≤ n)%nat → (length s ≤ n')%nat →
  parse_members pv' n' s acc = parse_members pv n s acc.
Proof.
  revert n' s acc. induction n as [|n IH]; intros n' s acc Hext Hn Hn'.
  - destruct s; [|cbn in Hn; lia]. by destruct n'.
  - destruct n' as [|n']; [destruct s; [done | cbn in Hn'; lia]|].
    cbn [parse_members]. destruct (skip_ws s) as [|q r0] eqn:E0; [done|].
    apply skip_ws_cons_length in E0. destruct (q =? 34); [|done].
    destruct (parse_chars r0 []) as [[k r1]|] eqn:E1; [|done].
    apply parse_chars_length in E1. cbn.
    destruct (skip_ws r1) as [|colon r2] eqn:E2; [done|].
    apply skip_ws_cons_length in E2. destruct (colon =? 58); [|done].
    rewrite Hext by lia.
    destruct (pv r2) as [[v r3]|] eqn:E3; [|done]. apply pv_consuming in E3. cbn.
    destruct (skip_ws r3) as [|c r4] eqn:E4; [done|].
    apply skip_ws_cons_length in E4.
    destruct (c =? 44); [|done].
    apply IH; [|lia|lia]. intros s' Hs'. apply Hext. lia.
Qed.

End Loops.

Lemma parse_value_consuming (fuel : nat) : consuming (parse_value fuel).
Proof.
  induction fuel as [|fuel IH]; intros s v r; [done|].
  cbn [parse_value]. destruct (skip_ws s) as [|c r0] eqn:E0; [done|].
  pose proof (skip_ws_length s) as Hs. rewrite E0 in Hs. cbn [length] in Hs.
  destruct (c =? 123).
  { destruct (skip_ws r0) as [|c' r'] eqn:E1; [done|].
    apply skip_ws_cons_length in E1.
    destruct (c' =? 125); [intros [= <- <-]; lia|].
    destruct (parse_members _ _ _ _) as [[o r'']|] eqn:E2; [|done].
    apply (parse_members_length _ IH) in E2. cbn. intros [= <- <-]. lia. }
  destruct (c =? 91).
  { destruct (skip_ws r0) as [|c' r'] eqn:E1; [done|].
    apply skip_ws_cons_length in E1.
    destruct (c' =? 93); [intros [= <- <-]; lia|].
    destruct (parse_elements _ _ _ _) as [[l r'']|] eqn:E2; [|done].
    apply (parse_elements_length _ IH) in E2. cbn. intros [= <- <-]. lia. }
  destruct (c =? 34).
  { destruct (parse_chars r0 []) as [[k r']|] eqn:E1; [|done].
    apply parse_chars_length in E1. cbn. intros [= <- <-]. lia. }
  destruct (c =? 116).
  { intros H. apply parse_word_length in H; [cbn [length] in H; lia | vm_compute; lia]. }
  destruct (c =? 102).
  { intros H. apply parse_word_length in H; [cbn [length] in H; lia | vm_compute; lia]. }
  destruct (c =? 110).
  { intros H. apply parse_word_length in H; [cbn [length] in H; lia | vm_compute; lia]. }
  destruct ((c =? 45) || _); [|done].
  intros H. apply parse_number_length in H. cbn [length] in H. lia.
Qed.

(** The result of the value parser is the same for every amount of fuel
    above the length of the text. *)
Lemma parse_value_fuel (f g : nat) (s : list N) :
  (length s < f)%nat → (length s < g)%nat → parse_value g s = parse_value f s.
Proof.
  revert g s. induction f as [|f IH]; intros g s Hf Hg; [lia|].
  destruct g as [|g]; [lia|]. cbn [parse_value].
  destruct (skip_ws s) as [|c r0] eqn:E0; [done|].
  apply skip_ws_cons_length in E0.
  destruct (c =? 123).
  { destruct (skip_ws r0) as [|c' r'] eqn:E1; [done|].
    destruct (c' =? 125); [done|].
    rewrite (parse_members_fuel _ (parse_value_consuming f) (parse_value g) f g);
      [done | | lia | lia].
    intros s' Hs'. apply IH; lia. }
  destruct (c =? 91); [|done].
  destruct (skip_ws r0) as [|c' r'] eqn:E1; [done|].
  destruct (c' =? 93); [done|].
  rewrite (parse_elements_fuel _ (parse_value_consuming f) (parse_value g) f g);
    [done | | lia | lia].
  intros s' Hs'. apply IH; lia.
Qed.

(** [JSON.parse] gives what the value parser gives with any fuel above the
    length of the text: running out of fuel is never why a text is
    rejected. *)
Theorem parse_fuel (fuel : nat) (text : list N) :
  (length text < fuel)%nat →
  parse text
  = match parse_value fuel text with
    | Some (v, r) => match skip_ws r with [] => Some v | _ => None end
    | None => None
    end.
Proof.
  intros Hf. unfold parse. by rewrite (parse_value_fuel (S (length text)) fuel) by lia.
Qed.

End JsonFacts.

(* ===================================================================== *)
(** ** Input validation and the credential check *)
(* ===================================================================== *)

Module Validation.
Import Js Props Http Routes Contract Samples Facts.

(** A body that omits what the route requires fails the route's test. *)
Lemma omitted_is_invalid (r : route) (b : gmap (list N) json) :
  required_input_omitted r b → invalid_input r (JObj b) = inr true.
Proof.
  destruct r; cbn [required_input_omitted invalid_input try_bind].
  - intros H. rewrite read_field, H; [done | is_member].
  - intros H. rewrite read_field, H; [done | is_member].
  - intros H. rewrite read_field, H; [done | is_member].
  - intros H. rewrite !read_field by is_member.
    cbn [try_bind]. f_equal. unfold populate_invalid.
    destruct H as [-> | [-> | [(v & -> & Hv) | ->]]]; cbn [from_option].
    + done.
    + cbn. by destruct (truthy _).
    + assert (isArray (Data v) = false) as ->
        by (destruct v as [| | | |l|]; try done; by destruct (Hv l)).
      cbn. by destruct (truthy _), (truthy_json v).
    + cbn. by destruct (truthy _).
  - intros H. rewrite read_field by is_member.
    cbn [try_bind]. f_equal. unfold chat_invalid.
    destruct H as [-> | [(v & -> & Hv) | ->]]; cbn [from_option].
    + done.
    + assert (isArray (Data v) = false) as ->
        by (destruct v as [| | | |l|]; try done; by destruct (Hv l)).
      cbn. by destruct (truthy_json v).
    + done.
Qed.

(** Every handler answers 400 when its test fails, before anything else. *)
Lemma invalid_is_rejected (r : route) (w : world) (body : json) :
  invalid_input r body = inr true →
  handler r w body = Respond (error_response 400 (required_message r)).
Proof.
  destruct r; cbn [invalid_input handler];
    unfold search, extract, insight, passthrough_handler, populate_form, chat, try_bind.
  - destruct (get_prop body _) as [e|v]; [done|]. intros [= ->]. done.
  - cbn [field extract_route]. destruct (get_prop body _) as [e|v]; [done|].
    intros [= ->]. done.
  - cbn [field insight_route]. destruct (get_prop body _) as [e|v]; [done|].
    intros [= ->]. done.
  - destruct (get_prop body (str "sourceText")) as [e|v]; [done|].
    destruct (get_prop body (str "questions")) as [e|v']; [done|].
    intros [= ->]. done.
  - destruct (get_prop body _) as [e|v]; [done|]. intros [= ->]. done.
Qed.

(** Past its test, a handler consults the credential and then fetches. *)
Lemma valid_checks_key (r : route) (w : world) (body : json) :
  invalid_input r body = inr false →
  match checkApiKey w with
  | inl refusal => handler r w body = Respond refusal
  | inr key => ∃ o k, handler r w body = Fetch o k
  end.
Proof.
  destruct r; cbn [invalid_input handler];
    unfold search, extract, insight, passthrough_handler, populate_form, chat, try_bind.
  - destruct (get_prop body _) as [e|v]; [done|]. intros [= ->].
    destruct (checkApiKey w); eauto.
  - cbn [field extract_route]. destruct (get_prop body _) as [e|v]; [done|].
    intros [= ->]. destruct (checkApiKey w); eauto.
  - cbn [field insight_route]. destruct (get_prop body _) as [e|v]; [done|].
    intros [= ->]. destruct (checkApiKey w); eauto.
  - destruct (get_prop body (str "sourceText")) as [e|v]; [done|].
    destruct (get_prop body (str "questions")) as [e|v']; [done|].
    intros [= ->]. destruct (checkApiKey w); eauto.
  - destruct (get_prop body _) as [e|v]; [done|]. intros [= ->].
    destruct (checkApiKey w); eauto.
Qed.

(** C6. On each of the five POST routes, a request whose body omits the
    required input (no query; no textToExtract; no textForInsight; no
    sourceText, or questions missing, not an array or empty; messages
    missing, not an array or empty) is answered with status 400 and an
    error message that is not empty and is the route's own, and the handler
    issues no call to the completion API. *)
Theorem missing_input_is_rejected (r : route) (w : world) (b : gmap (list N) json) :
  required_input_omitted r b →
  handler r w (JObj b) = Respond (error_response 400 (required_message r))
  ∧ required_message r ≠ []
  ∧ (∀ r', required_message r' = required_message r → r' = r)
  ∧ outbound_calls (handler r w (JObj b)) = [].
Proof.
  intros H. apply omitted_is_invalid, (invalid_is_rejected r w) in H.
  rewrite H. split_and!; [done | by destruct r | apply required_message_inj | done].
Qed.

Lemma missing_input_is_rejected_witness :
  handler Chat {| env := ∅; now := 2025 |} (JObj {[ str "messages" := JArr [] ]})
  = Respond (error_response 400 (str "Messages array is required for chat.")).
Proof.
  apply (missing_input_is_rejected Chat {| env := ∅; now := 2025 |}
           {[ str "messages" := JArr [] ]}).
  right; right. reflexivity.
Defined.

(** C7. On each of the five POST routes, when the credential is absent
    from the environment, a request that passed the input test is answered
    with status 500 and the configuration-error message, and the handler
    issues no call to the completion API. The start-up itself goes through:
    it logs that the key is not loaded, and GET / is served. *)
Theorem missing_credential_is_refused (r : route) (w : world) (body : json) :
  credential_absent w →
  invalid_input r body = inr false →
  handler r w body = Respond (error_response 500 API_KEY_MISSING)
  ∧ outbound_calls (handler r w body) = []
  ∧ App.startup_log (App.listen (env w)) !! 1%nat
    = Some (str "OpenRouter API Key IS NOT loaded. Please check your .env file.")
  ∧ ∀ requestOrigin, ServerJs.app w requestOrigin App.Root body = root.
Proof.
  intros Hkey Hvalid. pose proof (valid_checks_key r w body Hvalid) as H.
  rewrite (checkApiKey_absent w Hkey) in H. rewrite H.
  split_and!; [done | done | | done].
  unfold App.listen; cbn. by destruct Hkey as [-> | ->].
Qed.

Lemma missing_credential_is_refused_witness :
  handler Search {| env := ∅; now := 2025 |} (JObj {[ str "query" := JStr (str "cats") ]})
  = Respond (error_response 500 (str "Server configuration error: API Key missing.")).
Proof.
  apply (missing_credential_is_refused Search {| env := ∅; now := 2025 |}
           (JObj {[ str "query" := JStr (str "cats") ]})).
  - left. reflexivity.
  - vm_compute. reflexivity.
Defined.

End Validation.

(* ===================================================================== *)
(** ** The chat route *)
(* ===================================================================== *)

Module ChatRoute.
Import Js Props Http Routes Contract Samples Facts.

(** The system turn of the chat route, as JSON. *)
Lemma system_turn :
  message "system" (text chat_system)
  = JObj {[ str "role" := JStr (str "system"); str "content" := JStr chat_system ]}.
Proof. vm_compute. reflexivity. Qed.



End ChatRoute.

(* ===================================================================== *)
(** ** Fence stripping and parsing *)
(* ===================================================================== *)

Module FenceFacts.
Import Fence Contract.

Lemma fence_codes : str "```" = [96; 96; 96].
Proof. reflexivity. Qed.


Lemma drop_space_app (l1 l2 : list N) (c : N) :
  is_space c = false → drop_space (l1 ++ c :: l2) = drop_space l1 ++ c :: l2.
Proof.
  intros Hc. induction l1 as [|x l1 IH]; cbn [drop_space app].
  - by rewrite Hc.
  - by destruct (is_space x).
Qed.









Lemma closing_here_fence (r : list N) : closing_here (96 :: 96 :: 96 :: r) = all_space r.
Proof. reflexivity. Qed.





End FenceFacts.

(* ===================================================================== *)
(** ** The search route *)
(* ===================================================================== *)

Module SearchRoute.
Import Js Props Http Routes Contract Samples Facts.



Lemma results_body (results : list json) :
  object_literal [("results", Data (JArr results))]
  = JObj {[ str "results" := JArr results ]}.
Proof. vm_compute. reflexivity. Qed.

(** The answer to a successful upstream call. *)
Lemma search_reply_ok (year : Z) (query : value) (r : api_response)
    (data : option api_body) :
  succeeded r data →
  search_reply year query (Resolves r)
  = ok_response (JObj {[ str "results" := JArr (fetchedResults year query data) ]}).
Proof.
  intros [Hok Hjson]. unfold search_reply, json_of. rewrite Hok, Hjson.
  cbn [negb try_bind catch_all]. by rewrite results_body.
Qed.






(** *** Identifiers *)






End SearchRoute.

(* ===================================================================== *)
(** ** The form-population route *)
(* ===================================================================== *)

Module FormRoute.
Import Js Props Http Routes Contract Samples Facts.















(** The worked example of the contract: for the questions A and B and a
    reply that answers A with x, the output maps A to x and B to the empty
    string, and nothing else; an answer to C, which was not asked, changes
    nothing. *)
Example populate_form_A_B :
  run (populate_form keyed_world (JObj form_request)) (completion reply_A)
  = Some {| res_status := 200;
            res_body := JsonBody (JObj {[ str "populated_fields" :=
              JObj {[ str "A" := JStr (str "x"); str "B" := JStr [] ]} ]}) |}
  ∧ run (populate_form keyed_world (JObj form_request)) (completion reply_A_C)
    = run (populate_form keyed_world (JObj form_request)) (completion reply_A).
Proof. split; vm_compute; reflexivity. Qed.


(** A question that is the name of an inherited member: the read finds the
    built-in method, and the key is missing from what is sent. *)
Example populate_form_inherited_name :
  run (populate_form keyed_world
         (JObj {[ str "sourceText" := JStr (str "Alpha is x.");
                  str "questions" := JArr [JStr (str "toString")] ]}))
      (completion reply_A)
  = Some {| res_status := 200;
            res_body := JsonBody (JObj {[ str "populated_fields" := JObj ∅ ]}) |}.
Proof. vm_compute. reflexivity. Qed.

End FormRoute.

(* ===================================================================== *)
(** ** A plain fence in front of the reply *)
(* ===================================================================== *)

Module PlainFence.
Import Js Props Http Routes Contract Samples Facts FenceFacts.



End PlainFence.

(* ===================================================================== *)
(** ** Configuration: the credential, the origins, the two files *)
(* ===================================================================== *)

Module Configuration.
Import Js Props Http Routes Contract Samples Facts.









End Configuration.

(* ===================================================================== *)
(** ** Every request past its checks is forwarded *)
(* ===================================================================== *)

Module Forwarding.
Import Js Props Http Routes Contract Samples Outcome Facts.

Lemma checkApiKey_inr (w : world) (key : list N) :
  checkApiKey w = inr key → credential w key.
Proof.
  unfold checkApiKey, credential.
  destruct (env w !! OPENROUTER_API_KEY) as [k|]; [|done].
  case_bool_decide; [done|]. by intros [= ->].
Qed.

Lemma checkApiKey_inl (w : world) (refusal : response) :
  checkApiKey w = inl refusal →
  credential_absent w ∧ refusal = error_response 500 API_KEY_MISSING.
Proof.
  unfold checkApiKey, credential_absent.
  destruct (env w !! OPENROUTER_API_KEY) as [k|]; [|intros [= <-]; by split; [left|]].
  case_bool_decide as Hk; [|done]. intros [= <-]. rewrite Hk. by split; [right|].
Qed.

(** The three stages every handler goes through. *)
Lemma handler_stages (r : route) (w : world) (body : json) :
  match invalid_input r body with
  | inl e => handler r w body = Uncaught e
  | inr true => handler r w body = Respond (error_response 400 (required_message r))
  | inr false =>
      match checkApiKey w with
      | inl refusal => handler r w body = Respond refusal
      | inr key =>
          handler r w body = Fetch (request_of r key body) (continuation r w body)
      end
  end.
Proof.
  destruct r; cbn [invalid_input handler request_of continuation];
    unfold search, extract, insight, passthrough_handler, populate_form, chat,
      try_bind, field_value; cbn [field extract_route insight_route].
  - destruct (get_prop body _) as [e|v]; [done|]. destruct (negb (truthy v)); [done|].
    by destruct (checkApiKey w).
  - destruct (get_prop body _) as [e|v]; [done|]. destruct (negb (truthy v)); [done|].
    by destruct (checkApiKey w).
  - destruct (get_prop body _) as [e|v]; [done|]. destruct (negb (truthy v)); [done|].
    by destruct (checkApiKey w).
  - destruct (get_prop body (str "sourceText")) as [e|v]; [done|].
    destruct (get_prop body (str "questions")) as [e|v']; [done|].
    destruct (populate_invalid v v'); [done|]. by destruct (checkApiKey w).
  - destruct (get_prop body _) as [e|v]; [done|]. destruct (chat_invalid v); [done|].
    by destruct (checkApiKey w).
Qed.

Lemma handler_forwards (r : route) (w : world) (body : json) (key : list N) :
  invalid_input r body = inr false →
  credential w key →
  handler r w body = Fetch (request_of r key body) (continuation r w body).
Proof.
  intros Hv Hk. pose proof (handler_stages r w body) as H.
  by rewrite Hv, (checkApiKey_present w key Hk) in H.
Qed.

Lemma get_prop_not_null (body : json) (k : list N) :
  body ≠ JNull → ∃ v, get_prop body k = inr v.
Proof. intros Hb. unfold get_prop. destruct body; try done; destruct (own_property _ _); eauto. Qed.

Lemma invalid_input_not_null (r : route) (body : json) :
  body ≠ JNull → ∃ b, invalid_input r body = inr b.
Proof.
  intros Hb. destruct r; cbn [invalid_input]; unfold try_bind.
  - destruct (get_prop_not_null body (str "query") Hb) as [v ->]. eauto.
  - destruct (get_prop_not_null body (str "textToExtract") Hb) as [v ->]. eauto.
  - destruct (get_prop_not_null body (str "textForInsight") Hb) as [v ->]. eauto.
  - destruct (get_prop_not_null body (str "sourceText") Hb) as [v ->].
    destruct (get_prop_not_null body (str "questions") Hb) as [v' ->]. eauto.
  - destruct (get_prop_not_null body (str "messages") Hb) as [v ->]. eauto.
Qed.

(** X1. No handler throws on a body that is an object, an array or any
    other JSON value but null: whatever the upstream does, the request is
    answered. *)
Theorem handler_answers_every_body
    (r : route) (w : world) (body : json) (fr : fetch_result) :
  body ≠ JNull → is_Some (run (handler r w body) fr).
Proof.
  intros Hb. destruct (invalid_input_not_null r body Hb) as [b Hi].
  pose proof (handler_stages r w body) as H. rewrite Hi in H.
  destruct b; [by rewrite H|]. destruct (checkApiKey w); by rewrite H.
Qed.

Lemma handler_answers_every_body_witness :
  is_Some (run (handler Chat keyed_world (JArr [])) (Rejects [])).
Proof.
  apply (handler_answers_every_body Chat keyed_world (JArr []) (Rejects [])).
  discriminate.
Defined.


Lemma request_fields (r : route) (key : list N) (body : json) :
  out_url (request_of r key body) = OPENROUTER_API_URL
  ∧ out_method (request_of r key body) = str "POST"
  ∧ out_headers (request_of r key body)
    = [(str "Authorization", str "Bearer " ++ key);
       (str "Content-Type", str "application/json")]
  ∧ ∃ fields,
      out_body (request_of r key body) = JObj fields
      ∧ fields !! str "model" = Some (JStr MODEL_TO_USE)
      ∧ fields !! str "temperature" = Some (generation r).1
      ∧ fields !! str "max_tokens" = Some (generation r).2
      ∧ ∃ system messages,
          fields !! str "messages" = Some (JArr (JObj system :: messages))
          ∧ system !! str "role" = Some (JStr (str "system")).
Proof.
  destruct r; (split_and!; [reflexivity ..|]); eexists; (split; [reflexivity|]).
  all: split_and!; [reflexivity ..|]; do 2 eexists; split; reflexivity.
Qed.
Lemma fetch_inversion (r : route) (w : world) (body : json) o k :
  handler r w body = Fetch o k →
  ∃ key, credential w key ∧ o = request_of r key body ∧ k = continuation r w body.
Proof.
  intros Hf. pose proof (handler_stages r w body) as H. rewrite Hf in H.
  destruct (invalid_input r body) as [e|[|]]; [done|done|].
  destruct (checkApiKey w) as [refusal|key] eqn:Hc; [done|].
  injection H as -> ->. exists key. split; [by apply checkApiKey_inr | done].
Qed.

(** X3. Whenever a handler calls out, the call is a POST to the one
    upstream URL, and its Authorization header carries the credential the
    environment holds at that time. *)
Theorem call_goes_upstream_with_the_key
    (r : route) (w : world) (body : json) (o : outbound) (k : fetch_result → response) :
  handler r w body = Fetch o k →
  ∃ key,
    env w !! OPENROUTER_API_KEY = Some key
    ∧ out_url o = OPENROUTER_API_URL
    ∧ out_method o = str "POST"
    ∧ out_headers o = [(str "Authorization", str "Bearer " ++ key);
                       (str "Content-Type", str "application/json")].
Proof.
  intros Hf. destruct (fetch_inversion r w body o k Hf) as (key & [Hk _] & -> & _).
  exists key. destruct (request_fields r key body) as (Hu & Hm & Hh & _). done.
Qed.

Lemma call_goes_upstream_with_the_key_witness :
  ∃ key,
    env keyed_world !! OPENROUTER_API_KEY = Some key
    ∧ out_url (request_of Search (str "sk-test") (JObj cats_request)) = OPENROUTER_API_URL
    ∧ out_method (request_of Search (str "sk-test") (JObj cats_request)) = str "POST"
    ∧ out_headers (request_of Search (str "sk-test") (JObj cats_request))
      = [(str "Authorization", str "Bearer " ++ key);
         (str "Content-Type", str "application/json")].
Proof.
  apply (call_goes_upstream_with_the_key Search keyed_world (JObj cats_request)
           (request_of Search (str "sk-test") (JObj cats_request))
           (continuation Search keyed_world (JObj cats_request))).
  apply handler_forwards; [vm_compute; reflexivity | split; [reflexivity | discriminate]].
Defined.

(** X4. The model and the generation parameters of an upstream call are the
    route's own, whatever the body of the request holds, and the first
    message is a system turn. *)
Theorem generation_is_fixed_per_route
    (r : route) (w : world) (body : json) (o : outbound) (k : fetch_result → response) :
  handler r w body = Fetch o k →
  ∃ fields system messages,
    out_body o = JObj fields
    ∧ fields !! str "model" = Some (JStr MODEL_TO_USE)
    ∧ fields !! str "temperature" = Some (generation r).1
    ∧ fields !! str "max_tokens" = Some (generation r).2
    ∧ fields !! str "messages" = Some (JArr (JObj system :: messages))
    ∧ system !! str "role" = Some (JStr (str "system")).
Proof.
  intros Hf. destruct (fetch_inversion r w body o k Hf) as (key & _ & -> & _).
  destruct (request_fields r key body)
    as (_ & _ & _ & fields & Hb & Hmodel & Ht & Hx & system & messages & Hm & Hs).
  by exists fields, system, messages.
Qed.

Lemma generation_is_fixed_per_route_witness :
  ∃ fields system messages,
    out_body (request_of Chat (str "sk-test") (JObj greedy_chat)) = JObj fields
    ∧ fields !! str "model" = Some (JStr MODEL_TO_USE)
    ∧ fields !! str "temperature" = Some (JNum 7 (-1))
    ∧ fields !! str "max_tokens" = Some (JNum 500 0)
    ∧ fields !! str "messages" = Some (JArr (JObj system :: messages))
    ∧ system !! str "role" = Some (JStr (str "system")).
Proof.
  apply (generation_is_fixed_per_route Chat keyed_world (JObj greedy_chat)
           (request_of Chat (str "sk-test") (JObj greedy_chat))
           (continuation Chat keyed_world (JObj greedy_chat))).
  apply handler_forwards; [vm_compute; reflexivity | split; [reflexivity | discriminate]].
Defined.

(** X5. A handler reads the fields its route requires and nothing else of
    the body: two bodies that agree on them are handled alike. *)
Theorem other_fields_are_ignored
    (r : route) (w : world) (b b' : gmap (list N) json) :
  (∀ k, k ∈ required_fields r → b !! k = b' !! k) →
  handler r w (JObj b) = handler r w (JObj b').
Proof.
  intros Hb.
  destruct r; cbn [handler];
    unfold search, extract, insight, passthrough_handler, populate_form, chat;
    cbn [field extract_route insight_route];
    rewrite !read_field by is_member; rewrite !Hb by is_member; reflexivity.
Qed.

Lemma other_fields_are_ignored_witness :
  handler Chat keyed_world (JObj greedy_chat) = handler Chat keyed_world (JObj plain_chat).
Proof.
  apply (other_fields_are_ignored Chat keyed_world).
  intros k Hk. apply list_elem_of_fmap in Hk as (s & -> & Hs).
  apply list_elem_of_singleton in Hs as ->. vm_compute. reflexivity.
Defined.

End Forwarding.

(* ===================================================================== *)
(** ** What comes back from the upstream *)
(* ===================================================================== *)

Module Outcomes.
Import Js Props Http Routes Contract Samples Outcome Facts Forwarding.

Lemma continuation_rejects (r : route) (w : world) (body : json) (msg : list N) :
  continuation r w body (Rejects msg)
  = detailed_error 500 (failure_message r) (text msg).
Proof. by destruct r. Qed.

Lemma continuation_unreadable (r : route) (w : world) (body : json)
    (up : api_response) (msg : list N) :
  up_json up = JsonRejects msg →
  continuation r w body (Resolves up)
  = detailed_error 500 (failure_message r) (text msg).
Proof.
  intros Hj.
  destruct r; cbn [continuation];
    unfold search_reply, passthrough_reply, populate_reply, chat_reply, relay_error,
      json_of; rewrite Hj; by destruct (up_ok up).
Qed.

Lemma error_details_some (d : api_body) :
  error_details (Some d) = inr (text (relayed_details d)).
Proof.
  unfold error_details, relayed_details.
  destruct (body_message d) as [[|c m]|]; done.
Qed.

Lemma continuation_relays (r : route) (w : world) (body : json)
    (up : api_response) (d : api_body) :
  up_ok up = false →
  up_json up = JsonValue (Some d) →
  continuation r w body (Resolves up)
  = detailed_error (up_status up) (relay_label r ++ up_statusText up)
      (text (relayed_details d)).
Proof.
  intros Hok Hj.
  destruct r; cbn [continuation];
    unfold search_reply, passthrough_reply, populate_reply, chat_reply, relay_error,
      json_of; rewrite Hok, Hj; cbn [negb try_bind];
    by rewrite error_details_some.
Qed.

Lemma continuation_null_refusal (r : route) (w : world) (body : json)
    (up : api_response) :
  up_ok up = false →
  up_json up = JsonValue None →
  continuation r w body (Resolves up)
  = detailed_error 500 (failure_message r)
      (text (str "Cannot read properties of null (reading 'message')")).
Proof.
  intros Hok Hj.
  destruct r; cbn [continuation];
    unfold search_reply, passthrough_reply, populate_reply, chat_reply, relay_error,
      json_of; by rewrite Hok, Hj.
Qed.

Lemma relayed_details_nonempty (d : api_body) : relayed_details d ≠ [].
Proof. unfold relayed_details. by destruct (body_message d) as [[|c m]|]. Qed.

(** The pass-through routes on a successful upstream answer. *)
Lemma continuation_passes (r : route) (w : world) (body : json)
    (up : api_response) (data : option api_body) :
  r = Extract ∨ r = Insight ∨ r = Chat →
  succeeded up data →
  continuation r w body (Resolves up)
  = match reply_content data with
    | Some content => ok_response (JObj {[ result_key r := JStr content ]})
    | None => error_response 500 (default [] (no_content_message r))
    end.
Proof.
  intros Hr [Hok Hj].
  destruct Hr as [-> | [-> | ->]]; cbn [continuation];
    unfold passthrough_reply, chat_reply, json_of; rewrite Hok, Hj;
    cbn [negb try_bind]; by destruct (reply_content data).
Qed.

Lemma populate_continuation (w : world) (body : json)
    (up : api_response) (data : option api_body) :
  succeeded up data →
  continuation PopulateForm w body (Resolves up)
  = match reply_content data with
    | Some rawContent =>
        match finalPopulatedFields rawContent
                (elements (field_value body (str "questions"))) with
        | inr final =>
            ok_response (JObj {[ result_key PopulateForm :=
                                   JObj (stringify_object final) ]})
        | inl _ => error_response 500 (parsing_failed rawContent)
        end
    | None => error_response 500 (default [] (no_content_message PopulateForm))
    end.
Proof.
  intros [Hok Hj]. cbn [continuation]. unfold populate_reply, json_of.
  rewrite Hok, Hj. cbn [negb try_bind]. destruct (reply_content data); [|done].
  by destruct (finalPopulatedFields _ _).
Qed.

Lemma search_continuation (w : world) (body : json)
    (up : api_response) (data : option api_body) :
  succeeded up data →
  continuation Search w body (Resolves up)
  = ok_response (JObj {[ result_key Search :=
      JArr (fetchedResults (now w) (field_value body (str "query")) data) ]}).
Proof. intros Hok. cbn [continuation]. by rewrite (SearchRoute.search_reply_ok _ _ _ _ Hok). Qed.

Lemma parsing_failed_nonempty (rawContent : list N) : parsing_failed rawContent ≠ [].
Proof. unfold parsing_failed. intros H. vm_compute in H. discriminate H. Qed.

(** Every answer after the fetch is of one of the kinds. *)
Lemma continuation_answered (r : route) (w : world) (body : json) (fr : fetch_result) :
  answered r fr (continuation r w body fr).
Proof.
  destruct fr as [msg|up].
  { rewrite continuation_rejects. apply exception. }
  destruct (up_json up) as [msg|data] eqn:Hj.
  { rewrite (continuation_unreadable _ _ _ _ _ Hj). apply exception. }
  destruct (up_ok up) eqn:Hok.
  - assert (∃ up', Resolves up = Resolves up' ∧ up_ok up' = true) as Hup by eauto.
    destruct r.
    + rewrite (search_continuation _ _ _ data (conj Hok Hj)). by apply success.
    + rewrite (continuation_passes Extract _ _ _ data) by (eauto || done).
      destruct (reply_content data); [by apply success | by apply unshaped].
    + rewrite (continuation_passes Insight _ _ _ data) by (eauto || done).
      destruct (reply_content data); [by apply success | by apply unshaped].
    + rewrite (populate_continuation _ _ _ data (conj Hok Hj)).
      destruct (reply_content data) as [raw|]; [|by apply unshaped].
      destruct (finalPopulatedFields _ _); [|by apply success].
      apply unshaped; [done | apply parsing_failed_nonempty | done].
    + rewrite (continuation_passes Chat _ _ _ data) by (eauto || done).
      destruct (reply_content data); [by apply success | by apply unshaped].
  - destruct data as [d|].
    + rewrite (continuation_relays _ _ _ _ d Hok Hj).
      apply relayed; [done | done | apply relayed_details_nonempty].
    + rewrite (continuation_null_refusal _ _ _ _ Hok Hj). apply exception.
Qed.

Lemma handler_answered (r : route) (w : world) (body : json) (fr : fetch_result)
    (resp : response) :
  run (handler r w body) fr = Some resp → answered r fr resp.
Proof.
  pose proof (handler_stages r w body) as H.
  destruct (invalid_input r body) as [e|[|]].
  - by rewrite H.
  - rewrite H. intros [= <-]. apply bad_request.
  - destruct (checkApiKey w) as [refusal|key] eqn:Hc; rewrite H.
    + apply checkApiKey_inl in Hc as [_ ->]. intros [= <-]. apply no_credential.
    + intros [= <-]. apply continuation_answered.
Qed.
Lemma error_response_fields (code : Z) (e : list N) :
  error_response code e
  = {| res_status := code; res_body := JsonBody (JObj {[ str "error" := JStr e ]}) |}.
Proof. reflexivity. Qed.

Lemma detailed_error_fields (code : Z) (e d : list N) :
  detailed_error code e (text d)
  = {| res_status := code;
       res_body := JsonBody (JObj {[ str "error" := JStr e; str "details" := JStr d ]}) |}.
Proof. reflexivity. Qed.

Lemma run_forwards (r : route) (w : world) (body : json) (key : list N)
    (fr : fetch_result) :
  invalid_input r body = inr false →
  credential w key →
  run (handler r w body) fr = Some (continuation r w body fr).
Proof. intros Hv Hk. by rewrite (handler_forwards r w body key Hv Hk). Qed.

Lemma required_message_nonempty (r : route) : required_message r ≠ [].
Proof. destruct r; intros H; vm_compute in H; discriminate H. Qed.

Lemma failure_message_nonempty (r : route) : failure_message r ≠ [].
Proof. destruct r; intros H; vm_compute in H; discriminate H. Qed.

Lemma relay_label_nonempty (r : route) (s : list N) : relay_label r ++ s ≠ [].
Proof. destruct r; intros H; apply app_eq_nil in H as [H _]; vm_compute in H; discriminate H. Qed.

Lemma no_content_message_nonempty (r : route) (msg : list N) :
  no_content_message r = Some msg → msg ≠ [].
Proof. destruct r; intros [= <-] H; vm_compute in H; discriminate H. Qed.











(** X11. The status of an answer is 200, 400 or 500, or else the status of
    an upstream answer that was not ok. *)
Theorem status_is_200_400_500_or_relayed
    (r : route) (w : world) (body : json) (fr : fetch_result) (resp : response) :
  run (handler r w body) fr = Some resp →
  res_status resp = 200%Z ∨ res_status resp = 400%Z ∨ res_status resp = 500%Z
  ∨ ∃ up, fr = Resolves up ∧ up_ok up = false ∧ res_status resp = up_status up.
Proof.
  intros Hrun. apply handler_answered in Hrun.
  destruct Hrun as [| |msg|up details Hfr Hok _|msg _ _ _|v _]; eauto 10.
Qed.

Lemma status_is_200_400_500_or_relayed_witness :
  res_status (error_response 400 (required_message Search)) = 200%Z
  ∨ res_status (error_response 400 (required_message Search)) = 400%Z
  ∨ res_status (error_response 400 (required_message Search)) = 500%Z
  ∨ ∃ up, Rejects [] = Resolves up ∧ up_ok up = false
          ∧ res_status (error_response 400 (required_message Search)) = up_status up.
Proof.
  apply (status_is_200_400_500_or_relayed Search keyed_world (JObj ∅) (Rejects [])).
  vm_compute. reflexivity.
Defined.

(** X12. Every answer whose status is not 200 is a JSON object with a
    non-empty string under [error]. *)
Theorem failures_name_the_error
    (r : route) (w : world) (body : json) (fr : fetch_result) (resp : response) :
  run (handler r w body) fr = Some resp →
  res_status resp ≠ 200%Z →
  ∃ (o : gmap (list N) json) (e : list N),
    res_body resp = JsonBody (JObj o) ∧ o !! str "error" = Some (JStr e) ∧ e ≠ [].
Proof.
  intros Hrun Hs. apply handler_answered in Hrun.
  destruct Hrun as [| |msg|up details Hfr Hok _|msg _ Hm _|v _].
  - rewrite error_response_fields. do 2 eexists.
    split_and!; [done | apply lookup_singleton_eq | apply required_message_nonempty].
  - rewrite error_response_fields. do 2 eexists.
    split_and!; [done | apply lookup_singleton_eq | by intros H; vm_compute in H].
  - rewrite detailed_error_fields. do 2 eexists.
    split_and!; [done | apply lookup_insert_eq | apply failure_message_nonempty].
  - rewrite detailed_error_fields. do 2 eexists.
    split_and!; [done | apply lookup_insert_eq | apply relay_label_nonempty].
  - rewrite error_response_fields. do 2 eexists.
    split_and!; [done | apply lookup_singleton_eq | done].
  - done.
Qed.

Lemma failures_name_the_error_witness :
  ∃ (o : gmap (list N) json) (e : list N),
    res_body (error_response 400 (required_message Search)) = JsonBody (JObj o)
    ∧ o !! str "error" = Some (JStr e) ∧ e ≠ [].
Proof.
  apply (failures_name_the_error Search keyed_world (JObj ∅) (Rejects [])).
  - vm_compute. reflexivity.
  - discriminate.
Defined.

(** X13. When the upstream answered ok and the route answers 200, the body
    is a JSON object with exactly one key, the route's own. *)
Theorem success_has_one_key
    (r : route) (w : world) (body : json) (up : api_response) (resp : response) :
  run (handler r w body) (Resolves up) = Some resp →
  up_ok up = true →
  res_status resp = 200%Z →
  ∃ v, res_body resp = JsonBody (JObj {[ result_key r := v ]}).
Proof.
  intros Hrun Hup Hs. apply handler_answered in Hrun.
  destruct Hrun as [| |msg|up' details Hfr Hok _|msg _ Hm _|v _]; try done.
  - injection Hfr as <-. congruence.
  - by exists v.
Qed.

Lemma success_has_one_key_witness :
  ∃ v, res_body (continuation Search keyed_world (JObj cats_request)
                   (completion two_titles))
       = JsonBody (JObj {[ str "results" := v ]}).
Proof.
  apply (success_has_one_key Search keyed_world (JObj cats_request)
           (completion_response two_titles)).
  - apply run_forwards with (key := str "sk-test");
      [vm_compute; reflexivity | split; [reflexivity | discriminate]].
  - reflexivity.
  - vm_compute. reflexivity.
Defined.

End Outcomes.

(* ===================================================================== *)
(** ** The cleaning of fenced replies *)
(* ===================================================================== *)

Module Cleaning.
Import Fence FenceFacts.

Lemma tagged_codes : str "```json" = [96; 96; 96; 106; 115; 111; 110].
Proof. reflexivity. Qed.

Lemma strip_prefix_backtick (p s : list N) :
  96 ∉ s → strip_prefix (96 :: p) s = None.
Proof.
  destruct s as [|c s]; [done|]. intros Hs. cbn [strip_prefix].
  destruct (N.eqb_spec 96 c) as [<-|]; [|done]. destruct Hs. left.
Qed.

Lemma strip_prefix_app (p t : list N) : strip_prefix p (p ++ t) = Some t.
Proof. induction p as [|a p IH]; [done|]. cbn. by rewrite N.eqb_refl. Qed.

Lemma closing_here_no_backtick (s : list N) : 96 ∉ s → closing_here s = false.
Proof.
  intros Hs. unfold closing_here. rewrite fence_codes.
  by rewrite strip_prefix_backtick.
Qed.

Lemma strip_closing_no_backtick (s : list N) : 96 ∉ s → strip_closing s = s.
Proof.
  induction s as [|c s IH]; intros Hs.
  - reflexivity.
  - cbn [strip_closing]. rewrite (closing_here_no_backtick _ Hs).
    rewrite IH; [done|]. intros H. apply Hs. by right.
Qed.

(** What precedes a closing fence is kept, the fence and the white space
    after it go. *)
Lemma strip_closing_fence (p ws : list N) :
  96 ∉ p → all_space ws = true → strip_closing (p ++ 96 :: 96 :: 96 :: ws) = p.
Proof.
  intros Hp Hws. induction p as [|c p IH].
  - cbn [app strip_closing]. by rewrite closing_here_fence, Hws.
  - cbn [app strip_closing].
    assert (closing_here (c :: p ++ 96 :: 96 :: 96 :: ws) = false) as ->.
    { unfold closing_here. rewrite fence_codes. cbn [strip_prefix].
      destruct (N.eqb_spec 96 c) as [<-|]; [|done]. destruct Hp. left. }
    rewrite IH; [done|]. intros H. apply Hp. by right.
Qed.

Lemma drop_space_all_space (ws t : list N) :
  all_space ws = true → drop_space (ws ++ t) = drop_space t.
Proof.
  induction ws as [|c ws IH]; [done|]. cbn [all_space app drop_space].
  intros [Hc Hws]%andb_prop. rewrite Hc. by apply IH.
Qed.

Lemma drop_space_idemp (s : list N) : drop_space (drop_space s) = drop_space s.
Proof.
  induction s as [|c s IH]; [done|]. cbn [drop_space].
  destruct (is_space c) eqn:Hc; [done|]. cbn [drop_space]. by rewrite Hc.
Qed.

Lemma drop_space_elem (c : N) (s : list N) : c ∈ drop_space s → c ∈ s.
Proof.
  induction s as [|x s IH]; [done|]. cbn [drop_space].
  destruct (is_space x); [|done]. intros H. right. by apply IH.
Qed.

Lemma trim_drop_space (s : list N) : trim (drop_space s) = trim s.
Proof. unfold trim. by rewrite drop_space_idemp. Qed.

Lemma opening_here_no_backtick (s : list N) : 96 ∉ s → opening_here s = None.
Proof.
  intros Hs. unfold opening_here. rewrite tagged_codes.
  by rewrite strip_prefix_backtick.
Qed.

(** X14. A reply without a backtick is only trimmed by the cleaning. *)
Theorem reply_without_backtick_is_trimmed (rawContent : list N) :
  96 ∉ rawContent → jsonString rawContent = trim rawContent.
Proof.
  intros Hs. unfold jsonString, replace_fences.
  by rewrite (opening_here_no_backtick _ Hs), (strip_closing_no_backtick _ Hs).
Qed.

Lemma reply_without_backtick_is_trimmed_witness :
  jsonString (str " [1] ") = trim (str " [1] ").
Proof.
  apply (reply_without_backtick_is_trimmed (str " [1] ")).
  apply (bool_decide_eq_false_1 _). vm_compute. reflexivity.
Defined.

(** X15. The cleaning unwraps a fenced reply: a tagged opening fence with
    the white space after it, and a closing fence with the white space
    after it, are removed, each with or without the other, and what was
    between them is trimmed. *)
Theorem fenced_reply_is_unwrapped (ws1 payload ws2 : list N) :
  all_space ws1 = true →
  all_space ws2 = true →
  96 ∉ payload →
  jsonString (str "```json" ++ ws1 ++ payload ++ str "```" ++ ws2) = trim payload
  ∧ jsonString (str "```json" ++ ws1 ++ payload) = trim payload
  ∧ jsonString (payload ++ str "```" ++ ws2) = trim payload.
Proof.
  intros H1 H2 Hp.
  assert (96 ∉ drop_space payload) as Hp' by (intros H; by apply drop_space_elem in H).
  unfold jsonString, replace_fences, opening_here. split_and!.
  - rewrite strip_prefix_app. cbn [fmap option_fmap option_map].
    rewrite (drop_space_all_space _ _ H1), fence_codes. cbn [app].
    rewrite drop_space_app by done.
    rewrite (strip_closing_fence _ _ Hp' H2). apply trim_drop_space.
  - rewrite strip_prefix_app. cbn [fmap option_fmap option_map].
    rewrite (drop_space_all_space _ _ H1).
    rewrite (strip_closing_no_backtick _ Hp'). apply trim_drop_space.
  - assert (strip_prefix (str "```json") (payload ++ str "```" ++ ws2) = None) as ->.
    { rewrite tagged_codes, fence_codes. destruct payload as [|c p].
      - cbn [app strip_prefix]. rewrite !N.eqb_refl.
        destruct ws2 as [|x ws2]; [done|].
        cbn [strip_prefix]. destruct (N.eqb_spec 106 x) as [<-|]; [|done].
        by cbn in H2.
      - cbn [app strip_prefix]. destruct (N.eqb_spec 96 c) as [<-|]; [|done].
        destruct Hp. left. }
    cbn [fmap option_fmap option_map]. rewrite fence_codes. cbn [app].
    by rewrite (strip_closing_fence _ _ Hp H2).
Qed.

Lemma fenced_reply_is_unwrapped_witness :
  jsonString (str "```json" ++ newline ++ str "[1]" ++ str "```" ++ newline)
  = trim (str "[1]").
Proof.
  apply (fenced_reply_is_unwrapped newline (str "[1]") newline).
  - reflexivity.
  - reflexivity.
  - apply (bool_decide_eq_false_1 _). vm_compute. reflexivity.
Defined.

End Cleaning.

(* ===================================================================== *)
(** ** The search results *)
(* ===================================================================== *)

Module SearchResults.
Import Js Props Http Routes Contract Samples Outcome Facts Forwarding Outcomes.




Lemma with_id_null (index : nat) : ∃ e, with_id index JNull = inl e.
Proof. by eexists. Qed.
















End SearchResults.

(* ===================================================================== *)
(** ** The answers of the form route *)
(* ===================================================================== *)

Module FormAnswers.
Import Js Props Http Routes Contract Samples Outcome Facts Forwarding Outcomes.



















End FormAnswers.

(* ===================================================================== *)
(** ** Accepted bodies, and the start-up log *)
(* ===================================================================== *)

Module Acceptance.
Import Js Props Http Routes Contract Samples Outcome Facts Forwarding Outcomes.

Lemma inr_false (a : bool) : (inr a : throws bool) = inr false ↔ a = false.
Proof. split; [by intros [= ->] | by intros ->]. Qed.

Lemma truthy_passes (v : option json) :
  negb (truthy (from_option Data Undefined v)) = false
  ↔ ∃ j, v = Some j ∧ truthy_json j = true.
Proof.
  destruct v as [j|]; cbn [from_option truthy].
  - destruct (truthy_json j) eqn:Hj; split; [by eauto | done | done |].
    intros (j' & [= <-] & Hj'). congruence.
  - split; [done | by intros (j & ? & _)].
Qed.

Lemma populate_passes (s q : option json) :
  populate_invalid (from_option Data Undefined s) (from_option Data Undefined q) = false
  ↔ ∃ sourceText x xs,
      s = Some sourceText ∧ truthy_json sourceText = true ∧ q = Some (JArr (x :: xs)).
Proof.
  unfold populate_invalid.
  destruct s as [sj|]; [|split; [done | by intros (? & ? & ? & ? & _)]].
  cbn [from_option truthy]. destruct (truthy_json sj) eqn:Hs; cbn [negb orb].
  2: { split; [done|]. intros (? & ? & ? & [= <-] & ? & _). congruence. }
  destruct q as [[| | | |[|x xs]|]|];
    cbn [from_option truthy truthy_json isArray elements negb orb length];
    rewrite ?orb_true_r;
    try (split; [done | by intros (? & ? & ? & _ & _ & ?)]).
  rewrite bool_decide_eq_false_2 by done. split; [|done]. intros _. by exists sj, x, xs.
Qed.

Lemma chat_passes (m : option json) :
  chat_invalid (from_option Data Undefined m) = false
  ↔ ∃ x xs, m = Some (JArr (x :: xs)).
Proof.
  unfold chat_invalid.
  destruct m as [[| | | |[|x xs]|]|];
    cbn [from_option truthy truthy_json isArray elements negb orb length];
    rewrite ?orb_true_r;
    try (split; [done | by intros (? & ? & ?)]).
  rewrite bool_decide_eq_false_2 by done. split; [|done]. intros _. by exists x, xs.
Qed.

Lemma input_valid_iff (r : route) (b : gmap (list N) json) :
  invalid_input r (JObj b) = inr false ↔ required_input_present r b.
Proof.
  destruct r; cbn [invalid_input required_input_present];
    rewrite !read_field by is_member; cbn [try_bind]; rewrite inr_false.
  - apply truthy_passes.
  - apply truthy_passes.
  - apply truthy_passes.
  - apply populate_passes.
  - apply chat_passes.
Qed.

Lemma error_response_status (c c' : Z) (e e' : list N) :
  Respond (error_response c e) = Respond (error_response c' e') → c = c'.
Proof.
  intros H.
  exact (f_equal (λ a, match a with Respond r => res_status r | _ => 0%Z end) H).
Qed.

(** X22. A request with an object for a body is answered 400 with the
    route's message exactly when the body lacks what the route requires:
    a truthy required field, and for the lists a non-empty array. *)
Theorem rejected_iff_input_missing (r : route) (w : world) (b : gmap (list N) json) :
  handler r w (JObj b) = Respond (error_response 400 (required_message r))
  ↔ ¬ required_input_present r b.
Proof.
  rewrite <- input_valid_iff. pose proof (handler_stages r w (JObj b)) as H.
  assert (JObj b ≠ JNull) as Hb by done.
  destruct (invalid_input_not_null r (JObj b) Hb) as [[|] Hi]; rewrite Hi in H |- *.
  - split; [by intros _ [=] | done].
  - split; [|done]. intros Hr _. rewrite Hr in H.
    destruct (checkApiKey w) as [refusal|key] eqn:Hc; [|done].
    apply checkApiKey_inl in Hc as [_ ->]. apply error_response_status in H.
    discriminate H.
Qed.

End Acceptance.

Module Startup.
Import Js Props Http Routes Contract Samples Outcome Facts Forwarding.

(** X23. The second line the server logs at start-up says that the key is
    loaded exactly when [checkApiKey] lets a request through under the
    same environment, and that it is not loaded exactly when
    [checkApiKey] answers 500. *)
Theorem startup_log_agrees_with_checkApiKey (e : gmap (list N) (list N)) (year : Z) :
  (App.startup_log (App.listen e) !! 1%nat = Some (str "OpenRouter API Key is loaded.")
   ↔ ∃ key, checkApiKey {| env := e; now := year |} = inr key)
  ∧ (App.startup_log (App.listen e) !! 1%nat
     = Some (str "OpenRouter API Key IS NOT loaded. Please check your .env file.")
     ↔ checkApiKey {| env := e; now := year |}
       = inl (error_response 500 API_KEY_MISSING)).
Proof.
  unfold App.listen, checkApiKey. cbn [App.startup_log env lookup list_lookup].
  destruct (e !! OPENROUTER_API_KEY) as [[|c key]|].
  - rewrite bool_decide_eq_true_2 by reflexivity. split; split.
    + intros H. vm_compute in H. discriminate H.
    + intros [key H]. discriminate H.
    + reflexivity.
    + reflexivity.
  - rewrite bool_decide_eq_false_2 by discriminate. split; split.
    + intros _. by exists (c :: key).
    + reflexivity.
    + intros H. vm_compute in H. discriminate H.
    + intros H. discriminate H.
  - split; split.
    + intros H. vm_compute in H. discriminate H.
    + intros [key H]. discriminate H.
    + reflexivity.
    + reflexivity.
Qed.

End Startup.
